(** * SSP: peak binning and feature assembly of [ssp.py]

    A shallow embedding of the binning pipeline of [ssp.py]: [binning],
    [generate_count_peaks_matrix], the three methods of
    [SecStrucPredictor] that assemble the model input, and the script
    body that drives them.

    Numbers.  Chemical shifts, bin sizes and model outputs are Python
    floats in the program.  They are embedded as exact rationals ([Q]):
    [x - y], [x / y] and [x * y] are the exact operations and [x // y]
    is the floor of the exact quotient.  Rounding of binary64
    arithmetic, [nan] and [inf] are outside the model.  Bin indices and
    bin counts are Python integers ([Z]).  The cells of a count matrix
    hold the floats 0.0, 1.0, 2.0, ... and are embedded as [nat]. *)

From stdpp Require Import base list list_numbers strings gmap sorting.
From Stdlib Require Import ZArith QArith Qround Lia Lqa.

#[local] Open Scope Z_scope.

(** ** Exceptions and results *)

Module Py.

(** The exceptions the embedded code can raise. *)
Inductive exn : Type :=
| ZeroDivisionError
| IndexError
| ValueError
| AttributeError.

Inductive result (A : Type) : Type :=
| Ok (a : A)
| Raise (e : exn).
Arguments Ok {A} a.
Arguments Raise {A} e.

#[export] Instance result_ret : MRet result := fun A a => Ok a.
#[export] Instance result_bind : MBind result := fun A B f r =>
  match r with
  | Ok a => f a
  | Raise e => Raise e
  end.

(** A [for] loop that threads its state through the body and stops at
    the first exception. *)
Fixpoint for_each {S A : Type} (body : S → A → result S) (s : S) (l : list A)
  : result S :=
  match l with
  | [] => Ok s
  | a :: l' => s' ← body s a; for_each body s' l'
  end.

(** [x // y] on floats, followed by [int(...)]. *)
Definition floordiv (x y : Q) : result Z :=
  if Qeq_bool y 0 then Raise ZeroDivisionError else Ok (Qfloor (x / y)).

(** [x / y]. *)
Definition truediv (x y : Q) : result Q :=
  if Qeq_bool y 0 then Raise ZeroDivisionError else Ok (x / y)%Q.

(** [l[i]] on a Python list, negative indices counting from the end. *)
Definition getitem {A : Type} (l : list A) (i : Z) : result A :=
  let n := Z.of_nat (length l) in
  if (i <? - n) || (n <=? i) then Raise IndexError
  else match l !! Z.to_nat (if i <? 0 then i + n else i) with
       | Some a => Ok a
       | None => Raise IndexError
       end.

(** Reading an attribute of an object that may not have been set. *)
Definition getattr {A : Type} (field : option A) : result A :=
  match field with
  | Some a => Ok a
  | None => Raise AttributeError
  end.

(** Rounding to the nearest integer, ties to the even one. *)
Definition round_half_even (x : Q) : Z :=
  let f := Qfloor x in
  match (x - inject_Z f ?= 1 # 2)%Q with
  | Lt => f
  | Gt => f + 1
  | Eq => if Z.even f then f else f + 1
  end.

(** [round(x, ndigits)] for [ndigits >= 0]. *)
Definition round (x : Q) (ndigits : nat) : Q :=
  let scale := inject_Z (10 ^ Z.of_nat ndigits) in
  (inject_Z (round_half_even (x * scale)) / scale)%Q.

(** The number that the format [:.1f] displays. *)
Definition format_1f (x : Q) : Q := round x 1.

End Py.
Import Py.

(** ** [binning] *)

(** The body of the loop of [binning]: one shift, the list built so far. *)
Definition binning_body (binsize shift_min : Q) (num_1D_grid : Z)
    (bin_indexes : list Z) (ppm_value : Q) : result (list Z) :=
  bin_index ← floordiv (ppm_value - shift_min) binsize;
  if bin_index >? num_1D_grid - 1 then Ok bin_indexes
  else if bin_index <? 0 then Ok bin_indexes
  else Ok (bin_indexes ++ [bin_index]).

Definition binning (shifts : list Q) (binsize shift_min : Q) (num_1D_grid : Z)
  : result (list Z) :=
  for_each (binning_body binsize shift_min num_1D_grid) [] shifts.

(** The index of one value, and whether [binning] keeps it. *)
Definition bin_index_of (binsize shift_min ppm_value : Q) : Z :=
  Qfloor ((ppm_value - shift_min) / binsize).

Definition in_grid (num_1D_grid bin_index : Z) : bool :=
  (0 <=? bin_index) && (bin_index <=? num_1D_grid - 1).

(** ** Count matrices *)

(** A two-dimensional array as the list of its rows. *)
Abbreviation matrix := (list (list nat)).

Definition has_shape (rows cols : nat) (m : matrix) : Prop :=
  length m = rows ∧ Forall (λ row, length row = cols) m.

(** [m[r][c]] as a partial lookup. *)
Definition cell (m : matrix) (r c : nat) : option nat :=
  m !! r ≫= (λ row, row !! c).

(** The sum of all cells. *)
Definition cell_sum (m : matrix) : nat := sum_list (sum_list <$> m).

(** [np.zeros(grid_2D)]. *)
Definition np_zeros (grid_2D : Z * Z) : result matrix :=
  let '(rows, cols) := grid_2D in
  if (rows <? 0) || (cols <? 0) then Raise ValueError
  else Ok (replicate (Z.to_nat rows) (replicate (Z.to_nat cols) 0%nat)).

(** An index along an axis of length [dim]: negative indices count from
    the end, anything outside [-dim, dim) raises. *)
Definition np_axis (dim : nat) (i : Z) : result nat :=
  let n := Z.of_nat dim in
  if (i <? - n) || (n <=? i) then Raise IndexError
  else Ok (Z.to_nat (if i <? 0 then i + n else i)).

(** [m[r, c] += 1]. *)
Definition np_increment (m : matrix) (r c : Z) : result matrix :=
  r' ← np_axis (length m) r;
  match m !! r' with
  | Some row =>
      c' ← np_axis (length row) c;
      Ok (alter (alter S c') r' m)
  | None => Raise IndexError
  end.

(** [m.reshape(-1)]: the rows one after the other. *)
Definition reshape_1D (m : matrix) : list nat := concat m.

(** ** [generate_count_peaks_matrix] *)

Definition count_body (count_peaks_matrix : matrix) (bins : Z * Z)
  : result matrix :=
  let '(H_shift_bin, N_shift_bin) := bins in
  np_increment count_peaks_matrix N_shift_bin H_shift_bin.

Definition generate_count_peaks_matrix (binned_H_shifts binned_N_shifts : list Z)
    (H_num_1D_grid N_num_1D_grid : Z) : result matrix :=
  let grid_2D := (N_num_1D_grid, H_num_1D_grid) in
  count_peaks_matrix ← np_zeros grid_2D;
  for_each count_body count_peaks_matrix (zip binned_H_shifts binned_N_shifts).

(** How many of the index pairs [(H_shift_bin, N_shift_bin)] name row
    [r] and column [c]. *)
Definition pairs_at (pairs : list (Z * Z)) (r c : nat) : nat :=
  length (filter (λ b, b = (Z.of_nat c, Z.of_nat r)) pairs).

(** ** [SecStrucPredictor] *)

(** The attributes of the object; [None] until a method assigns them. *)
Record SecStrucPredictor : Type := mkSecStrucPredictor {
  matrix_20x10 : option matrix;
  matrix_26x10 : option matrix;
  matrix_10x8 : option matrix;
  matrix_20x10_1D : option (list nat);
  matrix_26x10_1D : option (list nat);
  matrix_10x8_1D : option (list nat);
  combined_inputs : option (list nat);
  predictions : option (list Q)
}.

(** The object after [__init__]. *)
Definition new_predictor : SecStrucPredictor :=
  mkSecStrucPredictor None None None None None None None None.

Definition get_input (self : SecStrucPredictor) (input_matrices : list matrix)
  : result SecStrucPredictor :=
  m0 ← getitem input_matrices 0;
  m1 ← getitem input_matrices 1;
  m2 ← getitem input_matrices 2;
  Ok (mkSecStrucPredictor (Some m0) (Some m1) (Some m2)
        (matrix_20x10_1D self) (matrix_26x10_1D self) (matrix_10x8_1D self)
        (combined_inputs self) (predictions self)).

Definition combine_inputs (self : SecStrucPredictor) : result SecStrucPredictor :=
  m0 ← getattr (matrix_20x10 self);
  m1 ← getattr (matrix_26x10 self);
  m2 ← getattr (matrix_10x8 self);
  let v0 := reshape_1D m0 in
  let v1 := reshape_1D m1 in
  let v2 := reshape_1D m2 in
  Ok (mkSecStrucPredictor (Some m0) (Some m1) (Some m2)
        (Some v0) (Some v1) (Some v2)
        (Some (v0 ++ v1 ++ v2)) (predictions self)).

(** [get_input] then [combine_inputs] on a fresh object, as the script
    calls them; the result is the attribute [combined_inputs]. *)
Definition assemble (input_matrices : list matrix) : result (list nat) :=
  self ← get_input new_predictor input_matrices;
  self ← combine_inputs self;
  getattr (combined_inputs self).

(** ** The script *)

(** A peak of the Topspin peak list. *)
Record peak : Type := mkPeak {
  intensity : Q;
  position : Q * Q
}.

(** A row of a peak list read from a CSV file. *)
Record csv_row : Type := mkRow {
  X_shift : Q;
  Y_shift : Q
}.

(** Where the peaks come from: a CSV file (the [test] and [.csv]
    branches) or the current Topspin dataset. *)
Inductive peak_source : Type :=
| FromCsv (peak_list : list csv_row)
| FromTopspin (peak_list : list peak).

(** [np.max] of a list: the largest element, an exception on []. *)
Definition np_max (l : list Q) : result Q :=
  match l with
  | [] => Raise ValueError
  | x :: l' => Ok (foldl (λ a b, if Qle_bool a b then b else a) x l')
  end.

(** The loop over the Topspin peaks.  [intensity / max_intensity] is a
    division by a numpy scalar, which never raises: for a zero maximum
    it yields [nan] or [-inf], and [x / 0 = 0] here; none is [> 0]. *)
Definition select_body (max_intensity : Q) (shifts : list Q * list Q) (p : peak)
  : result (list Q * list Q) :=
  let '(H_shifts, N_shifts) := shifts in
  let rel_intensity := (intensity p / max_intensity)%Q in
  if negb (Qle_bool rel_intensity 0)
  then Ok (H_shifts ++ [fst (position p)], N_shifts ++ [snd (position p)])
  else Ok (H_shifts, N_shifts).

(** The first part of the script: [(H_shifts, N_shifts)]. *)
Definition read_peaks (src : peak_source) : result (list Q * list Q) :=
  match src with
  | FromCsv peak_list => Ok (X_shift <$> peak_list, Y_shift <$> peak_list)
  | FromTopspin peak_list =>
      if (length peak_list =? 0)%nat then Raise ValueError
      else
        max_intensity ← np_max (intensity <$> peak_list);
        for_each (select_body max_intensity) ([], []) peak_list
  end.

Definition H_shift_max : Z := 11.
Definition H_shift_min : Z := 6.
Definition N_shift_max : Z := 140.
Definition N_shift_min : Z := 90.

(** The grids of the loop, [(H_num_1D_grid, N_num_1D_grid)]. *)
Definition grids : list (Z * Z) := [(10, 20); (10, 26); (8, 10)].

(** The body of the loop over the grids. *)
Definition grid_body (H_shifts N_shifts : list Q) (input_matrices : list matrix)
    (grid : Z * Z) : result (list matrix) :=
  let '(H_num_1D_grid, N_num_1D_grid) := grid in
  H_binsize ← truediv (inject_Z (H_shift_max - H_shift_min)) (inject_Z H_num_1D_grid);
  N_binsize ← truediv (inject_Z (N_shift_max - N_shift_min)) (inject_Z N_num_1D_grid);
  binned_H_shifts ← binning H_shifts H_binsize (inject_Z H_shift_min) H_num_1D_grid;
  binned_N_shifts ← binning N_shifts N_binsize (inject_Z N_shift_min) N_num_1D_grid;
  count_peaks_matrixes ←
    generate_count_peaks_matrix binned_H_shifts binned_N_shifts
      H_num_1D_grid N_num_1D_grid;
  Ok (input_matrices ++ [count_peaks_matrixes]).

Definition build_input_matrices (H_shifts N_shifts : list Q) : result (list matrix) :=
  for_each (grid_body H_shifts N_shifts) [] grids.

(** What the script prints, in the order it prints it.  The embedding
    of the script ends at this [print]; the SHAP plots and the
    self-test that follow it are left out. *)
Record printed : Type := mkPrinted {
  Helix : Q;
  Sheet : Q;
  Coil : Q
}.

Definition print_prediction (prediction : list Q) : result printed :=
  p2 ← getitem prediction 2;
  p1 ← getitem prediction 1;
  p0 ← getitem prediction 0;
  Ok (mkPrinted (format_1f (round p2 3 * 100))
                (format_1f (round p1 3 * 100))
                (format_1f (round p0 3 * 100))).

Section Script.

(** The regressor loaded from [Model.cbm]: the feature vector in, the
    predicted values out. *)
Variable Model_cbm : list nat → result (list Q).

Definition predict_structure_composition (self : SecStrucPredictor)
  : result (SecStrucPredictor * list Q) :=
  v ← getattr (combined_inputs self);
  p ← Model_cbm v;
  Ok (mkSecStrucPredictor (matrix_20x10 self) (matrix_26x10 self)
        (matrix_10x8 self) (matrix_20x10_1D self) (matrix_26x10_1D self)
        (matrix_10x8_1D self) (combined_inputs self) (Some p), p).

Definition main (src : peak_source) : result printed :=
  '(H_shifts, N_shifts) ← read_peaks src;
  let predictor := new_predictor in
  input_matrices ← build_input_matrices H_shifts N_shifts;
  predictor ← get_input predictor input_matrices;
  predictor ← combine_inputs predictor;
  '(predictor, prediction) ← predict_structure_composition predictor;
  print_prediction prediction.

End Script.

(** The binary64 number nearest to 50 / 26: the value of [N_binsize]
    that the script computes in floating point for the grid of 26
    bins. *)
Definition N_binsize_26_binary64 : Q := 8660768514174031 # 4503599627370496.

(** ** Joint binning, as the specification words it *)

(** The index pair of one peak under one grid. *)
Definition peak_bins (H_num_1D_grid N_num_1D_grid : Z) (pk : Q * Q) : Z * Z :=
  (bin_index_of (inject_Z (H_shift_max - H_shift_min) / inject_Z H_num_1D_grid)
     (inject_Z H_shift_min) (fst pk),
   bin_index_of (inject_Z (N_shift_max - N_shift_min) / inject_Z N_num_1D_grid)
     (inject_Z N_shift_min) (snd pk)).

(** A peak is retained only if both of its indices are in range; the
    pairs of the retained peaks, in order. *)
Definition joint_binning (H_num_1D_grid N_num_1D_grid : Z) (peaks : list (Q * Q))
  : list (Z * Z) :=
  filter (λ b, in_grid H_num_1D_grid (fst b) && in_grid N_num_1D_grid (snd b) = true)
    (peak_bins H_num_1D_grid N_num_1D_grid <$> peaks).

(** ** The rest of the module *)

(** Comparisons of rationals are decidable. *)
#[local] Instance Qle_decision (x y : Q) : Decision (x <= y)%Q :=
  match Qlt_le_dec y x with
  | left H => right (Qlt_not_le _ _ H)
  | right H => left H
  end.

#[local] Instance Qlt_decision (x y : Q) : Decision (x < y)%Q :=
  match Qlt_le_dec x y with
  | left H => left H
  | right H => right (Qle_not_lt _ _ H)
  end.

(** The half-open range of a grid of [num_1D_grid] bins. *)
Definition in_range (binsize shift_min : Q) (num_1D_grid : Z) (v : Q) : Prop :=
  (shift_min <= v)%Q ∧ (v < shift_min + inject_Z num_1D_grid * binsize)%Q.


(** [v.reshape(rows, cols)] on a one-dimensional array: the rows are
    cut off the front one after the other; a size that is not [rows *
    cols] raises. *)
Fixpoint chunks {A : Type} (cols rows : nat) (v : list A) : list (list A) :=
  match rows with
  | O => []
  | S rows' => take cols v :: chunks cols rows' (drop cols v)
  end.

Definition np_reshape {A : Type} (v : list A) (rows cols : nat)
  : result (list (list A)) :=
  if (length v =? rows * cols)%nat then Ok (chunks cols rows v)
  else Raise ValueError.

(** The slice [v[lo:hi]] for [0 <= lo] and [0 <= hi]. *)
Definition slice {A : Type} (lo hi : nat) (v : list A) : list A :=
  drop lo (take hi v).

(** The three spectra that [build_shap_spectra] cuts out of the raveled
    values of one output (lines 68 to 72), in the order of the list
    [spectra]; the plotting around them is left out. *)
Definition shap_spectra {A : Type} (values : list A)
  : result (list (list (list A))) :=
  spectra_20x10 ← np_reshape (take 200 values) 20 10;
  spectra_26x10 ← np_reshape (slice 200 460 values) 26 10;
  spectra_10x8 ← np_reshape (drop 460 values) 10 8;
  Ok [spectra_20x10; spectra_26x10; spectra_10x8].

(** The outcome of code that can only fail on a missing key. *)
Inductive keyed (A : Type) : Type :=
| Got (a : A)
| RaiseKeyError (key : string).
Arguments Got {A} a.
Arguments RaiseKeyError {A} key.

(** The body of the loop of [get_shifts]: a data frame is a finite map
    from column names to columns. *)
Definition get_shifts_body (atomtype : string) (shifts : list (list Q))
    (NMR_data : gmap string (list Q)) : keyed (list (list Q)) :=
  match NMR_data !! (atomtype +:+ "_shift") with
  | Some shifts_one_protein => Got (shifts ++ [shifts_one_protein])
  | None => RaiseKeyError (atomtype +:+ "_shift")
  end.

Fixpoint get_shifts_loop (atomtype : string) (shifts : list (list Q))
    (values : list (gmap string (list Q))) : keyed (list (list Q)) :=
  match values with
  | [] => Got shifts
  | NMR_data :: values' =>
      match get_shifts_body atomtype shifts NMR_data with
      | Got shifts' => get_shifts_loop atomtype shifts' values'
      | RaiseKeyError key => RaiseKeyError key
      end
  end.

(** [get_shifts]: the dictionary is the list of its items in insertion
    order, which is the order of [values()]. *)
Definition get_shifts (chemical_shifts : list (string * gmap string (list Q)))
    (atomtype : string) : keyed (list (list Q)) :=
  get_shifts_loop atomtype [] (snd <$> chemical_shifts).



(** [s.endswith(suffix)]. *)
Definition endswith (s suffix : string) : bool :=
  let n := String.length s in
  let k := String.length suffix in
  (k <=? n)%nat && String.eqb (String.substring (n - k) k s) suffix.

(** The branch that the script takes on its command line. *)
Inductive mode : Type :=
| TestMode
| CsvMode (path : string)
| TopspinMode.

Definition select_mode (argv : list string) : mode :=
  match argv !! 1%nat with
  | Some arg =>
      if String.eqb arg "test" then TestMode
      else if endswith arg ".csv" then CsvMode arg
      else TopspinMode
  | None => TopspinMode
  end.

Section WholeScript.

(** The regressor, [pd.read_csv], the peak list of the current Topspin
    dataset, and what the two SHAP calls of the script do. *)
Variable Model_cbm : list nat → result (list Q).
Variable read_csv : string → result (list csv_row).
Variable hsqc_peak_list : list peak.
Variable shap_block : result unit.

(** The script from its first line to its last.  The result tells
    whether the self-test of the last lines ran; what the self-test
    prints is left out. *)
Definition script (argv : list string) : result (printed * bool) :=
  src ← match select_mode argv with
        | TestMode =>
            peak_list ←
              read_csv "/opt/topspin4.2.0/python/examples/SSP/BMRB_peak_list_ubiquitin.csv";
            Ok (FromCsv peak_list)
        | CsvMode path => peak_list ← read_csv path; Ok (FromCsv peak_list)
        | TopspinMode => Ok (FromTopspin hsqc_peak_list)
        end;
  out ← main Model_cbm src;
  _ ← (if bool_decide ("shap" ∈ argv) then shap_block else Ok ());
  arg ← getitem argv 1;
  Ok (out, String.eqb arg "test").

End WholeScript.

(** ** Facts on [binning] *)

Lemma floordiv_nonzero x y :
  ¬ (y == 0)%Q → floordiv x y = Ok (Qfloor (x / y)).
Proof.
  intros Hy. unfold floordiv.
  destruct (Qeq_bool y 0) eqn:E; [|done].
  apply Qeq_bool_iff in E. contradiction.
Qed.

Lemma binning_body_nonzero binsize shift_min n acc v :
  ¬ (binsize == 0)%Q →
  binning_body binsize shift_min n acc v =
    Ok (acc ++ (if in_grid n (bin_index_of binsize shift_min v)
                then [bin_index_of binsize shift_min v] else [])).
Proof.
  intros Hb. unfold binning_body, in_grid, bin_index_of.
  rewrite floordiv_nonzero by done. unfold mbind, result_bind.
  generalize (Qfloor ((v - shift_min) / binsize)). intros i.
  rewrite Z.gtb_ltb.
  destruct (n - 1 <? i) eqn:E1; [|destruct (i <? 0) eqn:E2];
    destruct (0 <=? i) eqn:E3; destruct (i <=? n - 1) eqn:E4;
    simpl; rewrite ?app_nil_r; try done; lia.
Qed.

Lemma binning_loop_nonzero binsize shift_min n shifts acc :
  ¬ (binsize == 0)%Q →
  for_each (binning_body binsize shift_min n) acc shifts =
    Ok (acc ++ filter (λ i, in_grid n i = true)
                 (bin_index_of binsize shift_min <$> shifts)).
Proof.
  intros Hb. revert acc.
  induction shifts as [|v shifts IH]; intros acc; simpl.
  - by rewrite app_nil_r.
  - rewrite binning_body_nonzero by done. simpl. rewrite IH.
    rewrite filter_cons.
    destruct (in_grid n (bin_index_of binsize shift_min v)) eqn:E.
    + rewrite decide_True by done. by rewrite <- app_assoc.
    + rewrite decide_False by done. by rewrite app_nil_r.
Qed.

Lemma binning_nonzero shifts binsize shift_min n :
  ¬ (binsize == 0)%Q →
  binning shifts binsize shift_min n =
    Ok (filter (λ i, in_grid n i = true) (bin_index_of binsize shift_min <$> shifts)).
Proof. intros Hb. unfold binning. by rewrite binning_loop_nonzero. Qed.

Lemma in_grid_spec n i : in_grid n i = true ↔ 0 ≤ i ≤ n - 1.
Proof. unfold in_grid. rewrite andb_true_iff. lia. Qed.

(** Whatever the bin size, a list that [binning] returns holds only
    indices of the grid. *)
Lemma binning_in_grid shifts binsize shift_min n l :
  binning shifts binsize shift_min n = Ok l → Forall (λ i, 0 ≤ i ≤ n - 1) l.
Proof.
  destruct (Qeq_dec binsize 0) as [Hz|Hnz].
  - destruct shifts as [|v shifts]; unfold binning; simpl.
    + intros [= <-]. constructor.
    + unfold binning_body, floordiv.
      apply Qeq_bool_iff in Hz. rewrite Hz. simpl. discriminate.
  - rewrite binning_nonzero by done. intros [= <-].
    apply Forall_forall. intros i Hi.
    apply list_elem_of_filter in Hi as [Hi _]. by apply in_grid_spec.
Qed.

Lemma binning_length shifts binsize shift_min n l :
  binning shifts binsize shift_min n = Ok l → (length l ≤ length shifts)%nat.
Proof.
  destruct (Qeq_dec binsize 0) as [Hz|Hnz].
  - destruct shifts as [|v shifts]; unfold binning; simpl.
    + intros [= <-]. simpl. lia.
    + unfold binning_body, floordiv.
      apply Qeq_bool_iff in Hz. rewrite Hz. simpl. discriminate.
  - rewrite binning_nonzero by done. intros [= <-].
    etrans; [apply length_filter|]. by rewrite length_fmap.
Qed.

(** The index is the floor of the quotient: the value lies in the
    half-open bin that the index names. *)
Lemma bin_index_of_bounds binsize shift_min v :
  (0 < binsize)%Q →
  (inject_Z (bin_index_of binsize shift_min v) * binsize <= v - shift_min)%Q ∧
  (v - shift_min < inject_Z (bin_index_of binsize shift_min v + 1) * binsize)%Q.
Proof.
  intros Hb. unfold bin_index_of.
  set (q := ((v - shift_min) / binsize)%Q).
  assert (Hq : (q * binsize == v - shift_min)%Q).
  { unfold q. field. intros E. rewrite E in Hb. by apply Qlt_irrefl in Hb. }
  split.
  - rewrite <- Hq. apply Qmult_le_r; [done|]. apply Qfloor_le.
  - rewrite <- Hq. apply Qmult_lt_r; [done|]. apply Qlt_floor.
Qed.


(** Remark on rounding.  The nearest binary64 number to 50 / 26 lies
    above it, so 26 bins of that size reach beyond 140, and with that
    bin size the shift 140 has index 25 and is kept. *)
Lemma N_binsize_26_binary64_above :
  (25 # 13 < N_binsize_26_binary64)%Q ∧
  (N_binsize_26_binary64 - (25 # 13) < 1 # 2 ^ 53)%Q ∧
  (140 < 90 + inject_Z 26 * N_binsize_26_binary64)%Q ∧
  binning [140%Q] N_binsize_26_binary64 90 26 = Ok [25].
Proof. repeat split. Qed.

(** ** Facts on count matrices *)

Lemma np_zeros_shape (rows cols : Z) :
  0 ≤ rows → 0 ≤ cols →
  ∃ m, np_zeros (rows, cols) = Ok m ∧
       has_shape (Z.to_nat rows) (Z.to_nat cols) m ∧ cell_sum m = 0%nat.
Proof.
  intros Hr Hc. unfold np_zeros.
  assert ((rows <? 0) = false) as -> by lia.
  assert ((cols <? 0) = false) as -> by lia. simpl.
  eexists. split; [done|]. split; [split|].
  - by rewrite length_replicate.
  - apply Forall_replicate. by rewrite length_replicate.
  - unfold cell_sum. rewrite fmap_replicate, sum_list_replicate.
    rewrite sum_list_replicate. lia.
Qed.

Lemma np_axis_in_range dim i :
  0 ≤ i < Z.of_nat dim → np_axis dim i = Ok (Z.to_nat i).
Proof.
  intros Hi. unfold np_axis.
  assert ((i <? - Z.of_nat dim) = false) as -> by lia.
  assert ((Z.of_nat dim <=? i) = false) as -> by lia.
  assert ((i <? 0) = false) as -> by lia. done.
Qed.

Lemma sum_list_alter_S (row : list nat) c :
  (c < length row)%nat → sum_list (alter S c row) = S (sum_list row).
Proof.
  revert c. induction row as [|x row IH]; intros [|c] Hc; simpl in *; try lia.
  specialize (IH c). unfold alter in IH. rewrite IH by lia. lia.
Qed.

Lemma cell_sum_alter (f : list nat → list nat) (m : matrix) r row :
  m !! r = Some row →
  (cell_sum (alter f r m) + sum_list row = cell_sum m + sum_list (f row))%nat.
Proof.
  unfold cell_sum. revert r.
  induction m as [|x m IH]; intros [|r] Hr; try done.
  - injection Hr as ->. cbn. generalize (sum_list (sum_list <$> m)). lia.
  - specialize (IH r Hr). cbn in *. lia.
Qed.

Lemma has_shape_alter rows cols (m : matrix) r c :
  has_shape rows cols m → has_shape rows cols (alter (alter S c) r m).
Proof.
  intros [Hlen Hrows]. split.
  - by rewrite length_alter.
  - apply Forall_forall. intros row Hrow.
    apply list_elem_of_lookup in Hrow as [j Hj].
    rewrite list_lookup_alter in Hj. case_decide as E.
    + subst j. destruct (m !! r) as [row0|] eqn:Hm; simpl in Hj; [|done].
      injection Hj as <-. rewrite length_alter.
      eapply (proj1 (Forall_forall _ _) Hrows).
      apply list_elem_of_lookup. eauto.
    + eapply (proj1 (Forall_forall _ _) Hrows).
      apply list_elem_of_lookup. eauto.
Qed.

(** An increment at a cell of the matrix succeeds, keeps the shape and
    adds one to the sum. *)
Lemma np_increment_in_range rows cols (m : matrix) r c :
  has_shape rows cols m →
  0 ≤ r < Z.of_nat rows → 0 ≤ c < Z.of_nat cols →
  ∃ m', np_increment m r c = Ok m' ∧ has_shape rows cols m' ∧
        cell_sum m' = S (cell_sum m) ∧
        m' = alter (alter S (Z.to_nat c)) (Z.to_nat r) m.
Proof.
  intros Hm Hr Hc. pose proof Hm as [Hlen Hrows].
  unfold np_increment. rewrite np_axis_in_range by lia. simpl.
  destruct (m !! Z.to_nat r) as [row|] eqn:Hrow; last first.
  { apply lookup_ge_None in Hrow. lia. }
  assert (Hl : length row = cols).
  { eapply (proj1 (Forall_forall _ _) Hrows). apply list_elem_of_lookup. eauto. }
  rewrite np_axis_in_range by lia. simpl.
  eexists. split; [done|]. split; [by apply has_shape_alter|]. split; [|done].
  pose proof (cell_sum_alter (alter S (Z.to_nat c)) m _ _ Hrow) as Hs.
  rewrite sum_list_alter_S in Hs by lia. lia.
Qed.

(** The loop of [generate_count_peaks_matrix] over index pairs of the
    grid. *)
Lemma count_loop_in_range rows cols (pairs : list (Z * Z)) (m : matrix) :
  has_shape rows cols m →
  Forall (λ b, 0 ≤ fst b < Z.of_nat cols ∧ 0 ≤ snd b < Z.of_nat rows) pairs →
  ∃ m', for_each count_body m pairs = Ok m' ∧ has_shape rows cols m' ∧
        cell_sum m' = (cell_sum m + length pairs)%nat.
Proof.
  intros Hm Hp. revert m Hm.
  induction Hp as [|[h n] pairs [Hh Hn] _ IH]; intros m Hm; simpl.
  - exists m. split; [done|]. split; [done|]. lia.
  - simpl in Hh, Hn.
    destruct (np_increment_in_range rows cols m n h Hm Hn Hh)
      as (m1 & -> & Hm1 & Hs1 & _). simpl.
    destruct (IH m1 Hm1) as (m' & -> & Hm' & Hs').
    exists m'. split; [done|]. split; [done|]. lia.
Qed.

Lemma cell_alter (m : matrix) r' c' r c :
  cell (alter (alter S c') r' m) r c =
    if decide (r = r' ∧ c = c') then S <$> cell m r c else cell m r c.
Proof.
  unfold cell. rewrite list_lookup_alter.
  destruct (decide (r' = r)) as [->|Hr].
  - destruct (m !! r) as [row|]; simpl; [|by case_decide].
    rewrite list_lookup_alter.
    destruct (decide (c' = c)) as [->|Hc].
    + by rewrite decide_True.
    + rewrite decide_False; [done | intros [_ ?]; congruence].
  - rewrite decide_False; [done | intros [? _]; congruence].
Qed.

Lemma cell_zeros (rows cols r c : nat) :
  (r < rows)%nat → (c < cols)%nat →
  cell (replicate rows (replicate cols 0%nat)) r c = Some 0%nat.
Proof.
  intros Hr Hc. unfold cell.
  rewrite lookup_replicate_2 by done. simpl. by rewrite lookup_replicate_2.
Qed.

(** Each cell grows by the number of pairs that name it. *)
Lemma count_loop_cells rows cols (pairs : list (Z * Z)) (m m' : matrix) :
  has_shape rows cols m →
  Forall (λ b, 0 ≤ fst b < Z.of_nat cols ∧ 0 ≤ snd b < Z.of_nat rows) pairs →
  for_each count_body m pairs = Ok m' →
  ∀ r c, cell m' r c = (λ k, (k + pairs_at pairs r c)%nat) <$> cell m r c.
Proof.
  intros Hm Hp. revert m Hm.
  induction Hp as [|[h n] pairs [Hh Hn] _ IH]; intros m Hm E r c; simpl in E.
  - injection E as <-. unfold pairs_at. simpl.
    destruct (cell m r c); simpl; f_equal; lia.
  - simpl in Hh, Hn.
    destruct (np_increment_in_range rows cols m n h Hm Hn Hh)
      as (m1 & E1 & Hm1 & _ & ->).
    rewrite E1 in E. simpl in E. rewrite (IH _ Hm1 E r c), cell_alter.
    unfold pairs_at. rewrite filter_cons.
    destruct (decide (r = Z.to_nat n ∧ c = Z.to_nat h)) as [[-> ->]|Hne].
    + rewrite decide_True by (f_equal; lia).
      destruct (cell m _ _); simpl; f_equal; lia.
    + rewrite decide_False; [done|]. intros [= -> ->]. apply Hne. lia.
Qed.

Lemma Forall_zip_in_range (nH nN : Z) (bH bN : list Z) :
  Forall (λ i, 0 ≤ i ≤ nH - 1) bH → Forall (λ i, 0 ≤ i ≤ nN - 1) bN →
  Forall (λ b, 0 ≤ fst b < Z.of_nat (Z.to_nat nH) ∧
               0 ≤ snd b < Z.of_nat (Z.to_nat nN)) (zip bH bN).
Proof.
  intros HH. revert bN.
  induction HH as [|h bH Hh _ IH]; intros bN HN; simpl; [constructor|].
  destruct HN as [|n bN Hn HN]; [constructor|].
  constructor; [simpl; lia | by apply IH].
Qed.

(** [generate_count_peaks_matrix] on index lists of the grid: no
    exception, the shape of the grid, one count per zipped pair. *)
Lemma generate_in_range (bH bN : list Z) (nH nN : Z) :
  0 ≤ nH → 0 ≤ nN →
  Forall (λ i, 0 ≤ i ≤ nH - 1) bH → Forall (λ i, 0 ≤ i ≤ nN - 1) bN →
  ∃ m, generate_count_peaks_matrix bH bN nH nN = Ok m ∧
       has_shape (Z.to_nat nN) (Z.to_nat nH) m ∧
       cell_sum m = (length bH `min` length bN)%nat.
Proof.
  intros HnH HnN HH HN. unfold generate_count_peaks_matrix.
  destruct (np_zeros_shape nN nH HnN HnH) as (m0 & -> & Hm0 & Hs0). simpl.
  destruct (count_loop_in_range _ _ (zip bH bN) m0 Hm0
              (Forall_zip_in_range nH nN bH bN HH HN)) as (m & Hm & Hshape & Hs).
  exists m. split; [done|]. split; [done|].
  rewrite Hs, Hs0, length_zip. done.
Qed.

(** The count in each cell: the number of positions at which the two
    lists hold the column and the row of the cell. *)
Lemma generate_cells (bH bN : list Z) (nH nN : Z) m :
  0 ≤ nH → 0 ≤ nN →
  Forall (λ i, 0 ≤ i ≤ nH - 1) bH → Forall (λ i, 0 ≤ i ≤ nN - 1) bN →
  generate_count_peaks_matrix bH bN nH nN = Ok m →
  ∀ r c, (Z.of_nat r < nN) → (Z.of_nat c < nH) →
         cell m r c = Some (pairs_at (zip bH bN) r c).
Proof.
  intros HnH HnN HH HN E r c Hr Hc. unfold generate_count_peaks_matrix in E.
  destruct (np_zeros_shape nN nH HnN HnH) as (m0 & E0 & Hm0 & _).
  rewrite E0 in E. simpl in E.
  rewrite (count_loop_cells _ _ _ _ _ Hm0
             (Forall_zip_in_range nH nN bH bN HH HN) E r c).
  unfold np_zeros in E0.
  assert ((nN <? 0) = false) as Hf1 by lia.
  assert ((nH <? 0) = false) as Hf2 by lia.
  rewrite Hf1, Hf2 in E0. injection E0 as <-.
  rewrite cell_zeros by lia. done.
Qed.

(** ** Facts on flattening *)

Lemma reshape_1D_length rows cols (m : matrix) :
  has_shape rows cols m → length (reshape_1D m) = (rows * cols)%nat.
Proof.
  intros [<- Hrows]. unfold reshape_1D.
  induction Hrows as [|row m Hrow _ IH]; simpl; [done|].
  rewrite length_app, IH, Hrow. done.
Qed.

(** Row-major order: cell [(r, c)] of a matrix with [cols] columns is
    element [r * cols + c] of the flattened matrix. *)
Lemma reshape_1D_lookup rows cols (m : matrix) r c :
  has_shape rows cols m → (c < cols)%nat →
  reshape_1D m !! (r * cols + c)%nat = cell m r c.
Proof.
  intros [_ Hrows] Hc. unfold reshape_1D, cell. revert r.
  induction Hrows as [|row m Hrow _ IH]; intros r; simpl.
  - done.
  - destruct r as [|r]; simpl.
    + rewrite lookup_app_l by lia. done.
    + rewrite lookup_app_r by lia. rewrite <- IH. f_equal. lia.
Qed.

(** ** Facts on the script *)

Lemma inject_Z_nonzero (n : Z) : n ≠ 0 → ¬ (inject_Z n == 0)%Q.
Proof. intros Hn E. apply Hn. unfold Qeq in E. simpl in E. lia. Qed.

Lemma truediv_nonzero x (n : Z) :
  n ≠ 0 → truediv x (inject_Z n) = Ok (x / inject_Z n)%Q.
Proof.
  intros Hn. unfold truediv.
  destruct (Qeq_bool (inject_Z n) 0) eqn:E; [|done].
  apply Qeq_bool_iff in E. by apply inject_Z_nonzero in E.
Qed.

Lemma binsize_pos (d n : Z) : 0 < d → 0 < n → (0 < inject_Z d / inject_Z n)%Q.
Proof.
  intros Hd Hn. apply Qlt_shift_div_l.
  - change (inject_Z 0 < inject_Z n)%Q. by rewrite <- Zlt_Qlt.
  - rewrite Qmult_0_l. change (inject_Z 0 < inject_Z d)%Q. by rewrite <- Zlt_Qlt.
Qed.

Lemma binsize_nonzero (d n : Z) :
  0 < d → 0 < n → ¬ (inject_Z d / inject_Z n == 0)%Q.
Proof.
  intros Hd Hn E. pose proof (binsize_pos d n Hd Hn) as H.
  rewrite E in H. by apply Qlt_irrefl in H.
Qed.

(** One turn of the loop over the grids: both axes are binned on their
    own, the two lists go to [generate_count_peaks_matrix], and nothing
    raises. *)
Lemma grid_body_total H_shifts N_shifts acc (nH nN : Z) :
  0 < nH → 0 < nN →
  ∃ bH bN m,
    binning H_shifts (inject_Z (H_shift_max - H_shift_min) / inject_Z nH)
      (inject_Z H_shift_min) nH = Ok bH ∧
    binning N_shifts (inject_Z (N_shift_max - N_shift_min) / inject_Z nN)
      (inject_Z N_shift_min) nN = Ok bN ∧
    generate_count_peaks_matrix bH bN nH nN = Ok m ∧
    grid_body H_shifts N_shifts acc (nH, nN) = Ok (acc ++ [m]) ∧
    has_shape (Z.to_nat nN) (Z.to_nat nH) m ∧
    cell_sum m = (length bH `min` length bN)%nat.
Proof.
  intros HnH HnN.
  assert (HbH : ¬ (inject_Z (H_shift_max - H_shift_min) / inject_Z nH == 0)%Q)
    by (apply binsize_nonzero; [done | lia]).
  assert (HbN : ¬ (inject_Z (N_shift_max - N_shift_min) / inject_Z nN == 0)%Q)
    by (apply binsize_nonzero; [done | lia]).
  destruct (binning H_shifts _ (inject_Z H_shift_min) nH) as [bH|] eqn:EH;
    [|by rewrite binning_nonzero in EH].
  destruct (binning N_shifts _ (inject_Z N_shift_min) nN) as [bN|] eqn:EN;
    [|by rewrite binning_nonzero in EN].
  destruct (generate_in_range bH bN nH nN) as (m & Hm & Hshape & Hsum);
    [lia | lia | by eapply binning_in_grid | by eapply binning_in_grid |].
  exists bH, bN, m. do 3 (split; [done|]). split; [|done].
  unfold grid_body. rewrite !truediv_nonzero by lia. simpl.
  rewrite EH. simpl. rewrite EN. simpl. rewrite Hm. done.
Qed.

Lemma build_input_matrices_total H_shifts N_shifts :
  ∃ m0 m1 m2,
    build_input_matrices H_shifts N_shifts = Ok [m0; m1; m2] ∧
    has_shape 20 10 m0 ∧ has_shape 26 10 m1 ∧ has_shape 10 8 m2.
Proof.
  unfold build_input_matrices, grids.
  destruct (grid_body_total H_shifts N_shifts [] 10 20)
    as (_ & _ & m0 & _ & _ & _ & E0 & S0 & _); [lia | lia |].
  destruct (grid_body_total H_shifts N_shifts [m0] 10 26)
    as (_ & _ & m1 & _ & _ & _ & E1 & S1 & _); [lia | lia |].
  destruct (grid_body_total H_shifts N_shifts [m0; m1] 8 10)
    as (_ & _ & m2 & _ & _ & _ & E2 & S2 & _); [lia | lia |].
  exists m0, m1, m2. split; [|done].
  cbn [for_each]. rewrite E0. cbn [mbind result_bind app].
  rewrite E1. cbn [mbind result_bind app]. rewrite E2. done.
Qed.

Lemma getitem_lookup {A} (l : list A) (i : nat) a :
  l !! i = Some a → getitem l (Z.of_nat i) = Ok a.
Proof.
  intros Hi. pose proof (lookup_lt_Some _ _ _ Hi) as Hlt. unfold getitem.
  assert ((Z.of_nat i <? - Z.of_nat (length l)) = false) as -> by lia.
  assert ((Z.of_nat (length l) <=? Z.of_nat i) = false) as -> by lia.
  assert ((Z.of_nat i <? 0) = false) as -> by lia.
  cbn [orb]. by rewrite Nat2Z.id, Hi.
Qed.

Lemma assemble_three (m0 m1 m2 : matrix) (rest : list matrix) :
  assemble (m0 :: m1 :: m2 :: rest) =
    Ok (reshape_1D m0 ++ reshape_1D m1 ++ reshape_1D m2).
Proof.
  unfold assemble, get_input.
  rewrite (getitem_lookup _ 0 m0), (getitem_lookup _ 1 m1),
    (getitem_lookup _ 2 m2) by done.
  done.
Qed.

(** ** Facts on rounding *)

Lemma round_half_even_comp x y :
  (x == y)%Q → round_half_even x = round_half_even y.
Proof.
  intros E. unfold round_half_even.
  rewrite (Qfloor_comp _ _ E).
  assert ((x - inject_Z (Qfloor y) ?= 1 # 2) = (y - inject_Z (Qfloor y) ?= 1 # 2))%Q
    as -> by (by rewrite E).
  done.
Qed.

Lemma round_half_even_Z (k : Z) : round_half_even (inject_Z k) = k.
Proof.
  unfold round_half_even. rewrite Qfloor_Z.
  assert ((inject_Z k - inject_Z k ?= 1 # 2)%Q = Lt) as ->; [|done].
  apply (proj1 (Qlt_alt _ _)). generalize (inject_Z k). intros q. lra.
Qed.


(** [round(x, 3)] is a whole number of thousandths, the nearest one. *)
Lemma round_3_thousandths x :
  (round x 3 == inject_Z (round_half_even (x * 1000)) / 1000)%Q.
Proof. unfold round. done. Qed.


(** Formatting to one decimal changes nothing on a number rounded to
    thousandths and scaled by one hundred. *)
Lemma format_1f_round_3 x : (format_1f (round x 3 * 100) == round x 3 * 100)%Q.
Proof.
  unfold format_1f.
  set (k := round_half_even (x * 1000)).
  assert (Hk : (round x 3 * 100 * 10 == inject_Z k)%Q).
  { rewrite round_3_thousandths. fold k. field. }
  unfold round at 1. change (inject_Z (10 ^ Z.of_nat 1)) with 10%Q.
  rewrite (round_half_even_comp _ _ Hk), round_half_even_Z.
  rewrite round_3_thousandths. fold k. field.
Qed.

(** ** Facts on positional pairing *)

Lemma zip_take_min {A B} (l : list A) (k : list B) :
  zip (take (length l `min` length k) l) (take (length l `min` length k) k)
  = zip l k.
Proof.
  revert k. induction l as [|a l IH]; intros [|b k]; simpl; try done.
  by rewrite IH.
Qed.

Lemma generate_take_min (bH bN : list Z) (nH nN : Z) :
  generate_count_peaks_matrix
    (take (length bH `min` length bN) bH) (take (length bH `min` length bN) bN)
    nH nN
  = generate_count_peaks_matrix bH bN nH nN.
Proof. unfold generate_count_peaks_matrix. by rewrite zip_take_min. Qed.

(** The part of the counting invariant that holds on the code: the sum
    of the cells is at most the number of peaks, and reaches it exactly
    when neither axis dropped a value. *)
Lemma count_sum_le_peaks H_shifts N_shifts bh mh bn mn (nH nN : Z) bH bN :
  length H_shifts = length N_shifts →
  0 ≤ nH → 0 ≤ nN →
  binning H_shifts bh mh nH = Ok bH →
  binning N_shifts bn mn nN = Ok bN →
  ∃ m, generate_count_peaks_matrix bH bN nH nN = Ok m ∧
       (cell_sum m ≤ length H_shifts)%nat ∧
       (cell_sum m = length H_shifts ↔
        length bH = length H_shifts ∧ length bN = length N_shifts).
Proof.
  intros Hlen HnH HnN EH EN.
  destruct (generate_in_range bH bN nH nN) as (m & Hm & _ & Hs);
    [done | done | by eapply binning_in_grid | by eapply binning_in_grid |].
  apply binning_length in EH, EN.
  exists m. split; [done|]. rewrite Hs. lia.
Qed.

(** * The claims *)





(** C9.  Every index that [binning] returns lies in [0, num_1D_grid -
    1].  So on two lists returned by [binning] for the bin counts of the
    matrix, every increment of [generate_count_peaks_matrix] addresses a
    row in [0, N_num_1D_grid) and a column in [0, H_num_1D_grid): the
    function raises no [IndexError] and returns a matrix of shape
    [(N_num_1D_grid, H_num_1D_grid)]. *)
Theorem binned_indices_in_bounds (H_shifts N_shifts : list Q)
    (H_binsize H_shift_min' N_binsize N_shift_min' : Q)
    (H_num_1D_grid N_num_1D_grid : Z) (binned_H_shifts binned_N_shifts : list Z) :
  0 ≤ H_num_1D_grid → 0 ≤ N_num_1D_grid →
  binning H_shifts H_binsize H_shift_min' H_num_1D_grid = Ok binned_H_shifts →
  binning N_shifts N_binsize N_shift_min' N_num_1D_grid = Ok binned_N_shifts →
  Forall (λ i, 0 ≤ i ≤ H_num_1D_grid - 1) binned_H_shifts ∧
  Forall (λ i, 0 ≤ i ≤ N_num_1D_grid - 1) binned_N_shifts ∧
  Forall (λ b, 0 ≤ snd b < N_num_1D_grid ∧ 0 ≤ fst b < H_num_1D_grid)
    (zip binned_H_shifts binned_N_shifts) ∧
  ∃ m, generate_count_peaks_matrix binned_H_shifts binned_N_shifts
         H_num_1D_grid N_num_1D_grid = Ok m ∧
       has_shape (Z.to_nat N_num_1D_grid) (Z.to_nat H_num_1D_grid) m.
Proof.
  intros HnH HnN EH EN.
  pose proof (binning_in_grid _ _ _ _ _ EH) as HH.
  pose proof (binning_in_grid _ _ _ _ _ EN) as HN.
  split; [done|]. split; [done|]. split.
  - eapply Forall_impl;
      [exact (Forall_zip_in_range _ _ _ _ HH HN) | simpl; intros [h n]; simpl; lia].
  - destruct (generate_in_range _ _ _ _ HnH HnN HH HN) as (m & Hm & Hs & _).
    by exists m.
Qed.

Lemma binned_indices_in_bounds_witness :
  ∃ m, generate_count_peaks_matrix [2; 4] [4] 10 20 = Ok m ∧ has_shape 20 10 m.
Proof.
  apply (binned_indices_in_bounds [7; 5; 8]%Q [100; 150; 87]%Q
           (1 # 2) 6 (5 # 2) 90 10 20 [2; 4] [4]);
    [lia | lia | reflexivity | reflexivity].
Defined.

(** C10.  On two lists of indices of the grid, of any two lengths,
    [generate_count_peaks_matrix] raises nothing and counts one peak
    per position present in both lists: the sum of the cells is the
    smaller of the two lengths, the result is the one obtained from
    the two lists cut to that length, and each cell holds the number of
    positions at which the two lists name its column and its row. *)
Theorem generate_truncates (binned_H_shifts binned_N_shifts : list Z)
    (H_num_1D_grid N_num_1D_grid : Z) :
  0 ≤ H_num_1D_grid → 0 ≤ N_num_1D_grid →
  Forall (λ i, 0 ≤ i ≤ H_num_1D_grid - 1) binned_H_shifts →
  Forall (λ i, 0 ≤ i ≤ N_num_1D_grid - 1) binned_N_shifts →
  ∃ m, generate_count_peaks_matrix binned_H_shifts binned_N_shifts
         H_num_1D_grid N_num_1D_grid = Ok m ∧
       cell_sum m = (length binned_H_shifts `min` length binned_N_shifts)%nat ∧
       generate_count_peaks_matrix
         (take (length binned_H_shifts `min` length binned_N_shifts) binned_H_shifts)
         (take (length binned_H_shifts `min` length binned_N_shifts) binned_N_shifts)
         H_num_1D_grid N_num_1D_grid = Ok m ∧
       ∀ r c : nat, Z.of_nat r < N_num_1D_grid → Z.of_nat c < H_num_1D_grid →
         cell m r c = Some (pairs_at (zip binned_H_shifts binned_N_shifts) r c).
Proof.
  intros HnH HnN HH HN.
  destruct (generate_in_range _ _ _ _ HnH HnN HH HN) as (m & Hm & _ & Hs).
  exists m. split; [done|]. split; [done|].
  split; [by rewrite generate_take_min|].
  by apply generate_cells.
Qed.

Lemma generate_truncates_witness :
  ∃ m, generate_count_peaks_matrix [0; 1; 1; 0] [1; 2] 2 3 = Ok m ∧
       cell_sum m = (length [0; 1; 1; 0] `min` length [1; 2])%nat ∧
       generate_count_peaks_matrix
         (take (length [0; 1; 1; 0] `min` length [1; 2]) [0; 1; 1; 0])
         (take (length [0; 1; 1; 0] `min` length [1; 2]) [1; 2]) 2 3 = Ok m ∧
       ∀ r c : nat, Z.of_nat r < 3 → Z.of_nat c < 2 →
         cell m r c = Some (pairs_at (zip [0; 1; 1; 0] [1; 2]) r c).
Proof.
  apply (generate_truncates [0; 1; 1; 0] [1; 2] 2 3); [lia | lia | |];
    repeat constructor; lia.
Defined.

(** C1.  The script does not bin the two axes jointly.  On the peaks
    (5, 120) and (8, 150) and the grid of 10 by 20 bins, the first peak
    is out of range on the H axis and the second on the N axis, so no
    peak has both indices in range; yet each axis keeps one index, the
    two are paired by position, and the matrix counts one peak in the
    cell made of the H index of the second peak and the N index of the
    first. *)
Theorem axes_binned_apart :
  let H_shifts := [5; 8]%Q in
  let N_shifts := [120; 150]%Q in
  peak_bins 10 20 <$> zip H_shifts N_shifts = [(-2, 12); (4, 24)] ∧
  joint_binning 10 20 (zip H_shifts N_shifts) = [] ∧
  binning H_shifts (inject_Z (H_shift_max - H_shift_min) / inject_Z 10)
    (inject_Z H_shift_min) 10 = Ok [4] ∧
  binning N_shifts (inject_Z (N_shift_max - N_shift_min) / inject_Z 20)
    (inject_Z N_shift_min) 20 = Ok [12] ∧
  ∃ m0 m1 m2,
    build_input_matrices H_shifts N_shifts = Ok [m0; m1; m2] ∧
    cell m0 12 4 = Some 1%nat.
Proof.
  repeat split; try reflexivity.
  eexists _, _, _. split; [vm_compute; reflexivity | reflexivity].
Qed.

(** C2.  The sum of the cells is not the number of peaks in range on
    both axes.  On the peaks (7, 100), (5, 120) and (8, 150) and the
    grid of 10 by 20 bins only the first peak is in range on both axes,
    and the matrix holds two counts. *)
Theorem cell_sum_exceeds_joint_count :
  let H_shifts := [7; 5; 8]%Q in
  let N_shifts := [100; 120; 150]%Q in
  length (joint_binning 10 20 (zip H_shifts N_shifts)) = 1%nat ∧
  ∃ m0 m1 m2,
    build_input_matrices H_shifts N_shifts = Ok [m0; m1; m2] ∧
    cell_sum m0 = 2%nat ∧ cell m0 4 2 = Some 1%nat ∧ cell m0 12 4 = Some 1%nat.
Proof.
  split; [reflexivity|].
  eexists _, _, _. split; [vm_compute; reflexivity|]. repeat split.
Qed.

(** C5.  For all shifts the script builds three matrices, of 20 by 10,
    26 by 10 and 10 by 8 cells, and the vector handed to the model is
    their row-major flattenings one after the other: cell [(r, c)] of
    the first matrix is element [r * 10 + c], of the second element
    [200 + r * 10 + c], of the third element [460 + r * 8 + c], and the
    vector has 540 elements. *)
Theorem combined_inputs_layout (H_shifts N_shifts : list Q) :
  ∃ m0 m1 m2 v,
    build_input_matrices H_shifts N_shifts = Ok [m0; m1; m2] ∧
    has_shape 20 10 m0 ∧ has_shape 26 10 m1 ∧ has_shape 10 8 m2 ∧
    assemble [m0; m1; m2] = Ok v ∧
    v = reshape_1D m0 ++ reshape_1D m1 ++ reshape_1D m2 ∧
    length (reshape_1D m0) = 200%nat ∧ length (reshape_1D m1) = 260%nat ∧
    length (reshape_1D m2) = 80%nat ∧ length v = 540%nat ∧
    ∀ r c : nat,
      ((r < 20)%nat → (c < 10)%nat → v !! (r * 10 + c)%nat = cell m0 r c) ∧
      ((r < 26)%nat → (c < 10)%nat → v !! (200 + r * 10 + c)%nat = cell m1 r c) ∧
      ((r < 10)%nat → (c < 8)%nat → v !! (460 + r * 8 + c)%nat = cell m2 r c).
Proof.
  destruct (build_input_matrices_total H_shifts N_shifts)
    as (m0 & m1 & m2 & E & S0 & S1 & S2).
  pose proof (reshape_1D_length _ _ _ S0) as L0.
  pose proof (reshape_1D_length _ _ _ S1) as L1.
  pose proof (reshape_1D_length _ _ _ S2) as L2.
  exists m0, m1, m2, (reshape_1D m0 ++ reshape_1D m1 ++ reshape_1D m2).
  do 4 (split; [done|]). split; [apply assemble_three|].
  do 4 (split; [done|]). split; [rewrite !length_app; lia|].
  intros r c. split; [|split]; intros Hr Hc.
  - rewrite lookup_app_l by nia. by apply (reshape_1D_lookup 20 10).
  - rewrite lookup_app_r by lia. rewrite lookup_app_l by nia.
    rewrite <- (reshape_1D_lookup 26 10 m1 r c) by done. f_equal. lia.
  - rewrite lookup_app_r by lia. rewrite lookup_app_r by lia.
    rewrite <- (reshape_1D_lookup 10 8 m2 r c) by done. f_equal. lia.
Qed.

Lemma combined_inputs_layout_witness :
  ∃ ms v, build_input_matrices [7]%Q [100]%Q = Ok ms ∧ assemble ms = Ok v ∧
          length v = 540%nat ∧ v !! 42%nat = Some 1%nat.
Proof.
  destruct (combined_inputs_layout [7]%Q [100]%Q)
    as (m0 & m1 & m2 & v & E & _ & _ & _ & Ev & _ & _ & _ & _ & Hlen & Hcell).
  exists [m0; m1; m2], v. split; [exact E|]. split; [exact Ev|].
  split; [exact Hlen|].
  destruct (Hcell 4%nat 2%nat) as (H0 & _ & _).
  change (4 * 10 + 2)%nat with 42%nat in H0. rewrite H0 by lia.
  vm_compute in E. injection E as <- _ _. reflexivity.
Defined.

(** C6.  The empty peak list is rejected only on the Topspin path.  A
    CSV file without rows gives two empty lists of shifts, the script
    bins them, hands the vector of 540 zeros to the model and prints
    what the model returns; the empty Topspin peak list raises before
    anything is binned. *)
Theorem empty_csv_not_rejected (Model_cbm : list nat → result (list Q)) :
  read_peaks (FromCsv []) = Ok ([], []) ∧
  (build_input_matrices [] [] ≫= assemble) = Ok (replicate 540 0%nat) ∧
  main Model_cbm (FromCsv []) =
    (Model_cbm (replicate 540 0%nat) ≫= print_prediction) ∧
  read_peaks (FromTopspin []) = Raise ValueError ∧
  main Model_cbm (FromTopspin []) = Raise ValueError.
Proof.
  split; [reflexivity|]. split; [vm_compute; reflexivity|].
  split; [|split; reflexivity].
  unfold main.
  change (read_peaks (FromCsv [])) with (@Ok (list Q * list Q) ([], [])).
  cbn [mbind result_bind].
  assert (E : build_input_matrices [] [] =
              Ok [replicate 20 (replicate 10 0%nat);
                  replicate 26 (replicate 10 0%nat);
                  replicate 10 (replicate 8 0%nat)])
    by (vm_compute; reflexivity).
  rewrite E. cbn [mbind result_bind].
  unfold predict_structure_composition.
  change (get_input new_predictor _) with
    (Ok (mkSecStrucPredictor
           (Some (replicate 20 (replicate 10 0%nat)))
           (Some (replicate 26 (replicate 10 0%nat)))
           (Some (replicate 10 (replicate 8 0%nat)))
           None None None None None)).
  cbn [mbind result_bind combine_inputs getattr matrix_20x10 matrix_26x10
       matrix_10x8 combined_inputs predictions].
  change (reshape_1D _ ++ reshape_1D _ ++ reshape_1D _)
    with (replicate 540 0%nat).
  destruct (Model_cbm (replicate 540 0%nat)) as [p|e]; reflexivity.
Qed.

(** C7, as it stands, fails: three matrices of one cell each are
    combined into a vector of three elements, and nothing is raised. *)
Lemma combine_inputs_unchecked :
  ¬ has_shape 20 10 [[1%nat]] ∧
  assemble [[[1%nat]]; [[2%nat]]; [[3%nat]]] = Ok [1; 2; 3]%nat ∧
  length [1; 2; 3]%nat ≠ 540%nat.
Proof.
  split; [|split; [reflexivity | simpl; lia]].
  intros [Hlen _]. simpl in Hlen. lia.
Qed.

(** C7, amended.  [get_input] and [combine_inputs] check no shape and
    raise nothing on three matrices or more: the result is the
    row-major flattenings of the first three, one after the other, and
    its length is the number of cells of the three together.  It has
    540 elements when the three have the shapes of the grids; with
    fewer than three matrices [get_input] raises [IndexError]. *)
Theorem combine_inputs_any_shape (m0 m1 m2 : matrix) (rest : list matrix) :
  assemble (m0 :: m1 :: m2 :: rest) =
    Ok (reshape_1D m0 ++ reshape_1D m1 ++ reshape_1D m2) ∧
  length (reshape_1D m0 ++ reshape_1D m1 ++ reshape_1D m2) =
    (length (reshape_1D m0) + length (reshape_1D m1) + length (reshape_1D m2))%nat ∧
  (has_shape 20 10 m0 → has_shape 26 10 m1 → has_shape 10 8 m2 →
   length (reshape_1D m0 ++ reshape_1D m1 ++ reshape_1D m2) = 540%nat) ∧
  assemble [m0; m1] = Raise IndexError ∧
  assemble [m0] = Raise IndexError ∧
  assemble [] = Raise IndexError.
Proof.
  split; [apply assemble_three|]. split; [rewrite !length_app; lia|].
  split; [|repeat split].
  intros S0 S1 S2. rewrite !length_app.
  rewrite (reshape_1D_length _ _ _ S0), (reshape_1D_length _ _ _ S1),
    (reshape_1D_length _ _ _ S2). done.
Qed.

Lemma combine_inputs_any_shape_witness :
  length (reshape_1D (replicate 20 (replicate 10 0%nat)) ++
          reshape_1D (replicate 26 (replicate 10 1%nat)) ++
          reshape_1D (replicate 10 (replicate 8 2%nat))) = 540%nat.
Proof.
  apply (combine_inputs_any_shape
           (replicate 20 (replicate 10 0%nat))
           (replicate 26 (replicate 10 1%nat))
           (replicate 10 (replicate 8 2%nat)) []);
    (split; [reflexivity | repeat constructor]).
Defined.


(** * Further properties of the code *)

(** ** [binning] *)

Lemma in_grid_in_range binsize shift_min n v :
  (0 < binsize)%Q →
  in_grid n (bin_index_of binsize shift_min v) = true ↔
  in_range binsize shift_min n v.
Proof.
  intros Hb. rewrite in_grid_spec. unfold in_range.
  destruct (bin_index_of_bounds binsize shift_min v Hb) as [Hlo Hhi].
  rewrite inject_Z_plus in Hhi. change (inject_Z 1) with 1%Q in Hhi.
  set (i := bin_index_of binsize shift_min v) in *.
  split.
  - intros [H0 Hn].
    assert (Q0 : (0 <= inject_Z i)%Q)
      by (change (inject_Z 0 <= inject_Z i)%Q; by rewrite <- Zle_Qle).
    assert (Qn : (inject_Z i + 1 <= inject_Z n)%Q).
    { change 1%Q with (inject_Z 1). rewrite <- inject_Z_plus, <- Zle_Qle. lia. }
    generalize dependent (inject_Z i). generalize (inject_Z n).
    intros qn qi Hlo Hhi Q0 Qn. split; nra.
  - intros [Hv Hn]. split.
    + destruct (Z_lt_le_dec i 0) as [Hneg|]; [|done]. exfalso.
      assert (Qi : (inject_Z i + 1 <= 0)%Q).
      { change 1%Q with (inject_Z 1). change 0%Q with (inject_Z 0).
        rewrite <- inject_Z_plus, <- Zle_Qle. lia. }
      generalize dependent (inject_Z i). intros qi Hlo Hhi Qi. nra.
    + destruct (Z_lt_le_dec (n - 1) i) as [Hbig|]; [|done]. exfalso.
      assert (Qi : (inject_Z n <= inject_Z i)%Q) by (rewrite <- Zle_Qle; lia).
      generalize dependent (inject_Z i). generalize dependent (inject_Z n).
      intros qn Hn qi Hlo Hhi Qi. nra.
Qed.

Lemma pos_nonzero (binsize : Q) : (0 < binsize)%Q → ¬ (binsize == 0)%Q.
Proof. intros Hb E. rewrite E in Hb. by apply Qlt_irrefl in Hb. Qed.

Lemma filter_fmap_index binsize shift_min n (shifts : list Q) :
  (0 < binsize)%Q →
  filter (λ i, in_grid n i = true) (bin_index_of binsize shift_min <$> shifts) =
  bin_index_of binsize shift_min <$> filter (in_range binsize shift_min n) shifts.
Proof.
  intros Hb. induction shifts as [|v shifts IH]; [done|].
  rewrite fmap_cons, !filter_cons, IH.
  destruct (decide (in_grid n (bin_index_of binsize shift_min v) = true)) as [Hi|Hi].
  - rewrite decide_True by (by apply in_grid_in_range). done.
  - rewrite decide_False; [done|]. intros Hr. apply Hi. by apply in_grid_in_range.
Qed.

Lemma binning_filter_range (shifts : list Q) (binsize shift_min : Q) (n : Z) :
  (0 < binsize)%Q →
  binning shifts binsize shift_min n =
    Ok (bin_index_of binsize shift_min <$>
        filter (in_range binsize shift_min n) shifts).
Proof.
  intros Hb. rewrite binning_nonzero by (by apply pos_nonzero).
  by rewrite filter_fmap_index.
Qed.







(** X4.  Binning a peak list in two parts gives the two lists of
    indices one after the other, also when it raises. *)
Theorem binning_app (shifts1 shifts2 : list Q) (binsize shift_min : Q) (n : Z) :
  binning (shifts1 ++ shifts2) binsize shift_min n =
    (l1 ← binning shifts1 binsize shift_min n;
     l2 ← binning shifts2 binsize shift_min n;
     Ok (l1 ++ l2)).
Proof.
  destruct (Qeq_dec binsize 0) as [Hz|Hnz].
  - assert (Hraise : ∀ v l, binning (v :: l) binsize shift_min n
                            = Raise ZeroDivisionError).
    { intros v l. unfold binning. simpl. unfold binning_body, floordiv.
      apply Qeq_bool_iff in Hz. by rewrite Hz. }
    destruct shifts1 as [|v shifts1].
    + simpl. change (binning [] binsize shift_min n) with (@Ok (list Z) []).
      simpl. by destruct (binning shifts2 binsize shift_min n).
    + simpl. by rewrite !Hraise.
  - rewrite !binning_nonzero by done. simpl.
    by rewrite fmap_app, filter_app.
Qed.

(** X5.  For a positive bin size the index grows with the shift, so an
    ascending list of shifts is binned to an ascending list of
    indices. *)
Theorem binning_sorted (shifts : list Q) (binsize shift_min : Q) (n : Z)
    (bin_indexes : list Z) :
  (0 < binsize)%Q →
  StronglySorted Qle shifts →
  binning shifts binsize shift_min n = Ok bin_indexes →
  StronglySorted Z.le bin_indexes.
Proof.
  intros Hb Hs. rewrite binning_filter_range by done. intros [= <-].
  apply (StronglySorted_fmap _ Qle).
  - intros v w Hvw. unfold bin_index_of. apply Qfloor_resp_le.
    apply Qmult_le_r; [by apply Qinv_lt_0_compat|].
    unfold Qminus. by apply Qplus_le_l.
  - induction Hs as [|v l _ IH Hv]; [constructor|].
    rewrite filter_cons. case_decide; [|done].
    constructor; [done|].
    apply Forall_forall. intros w Hw.
    apply list_elem_of_filter in Hw as [_ Hw].
    by eapply (proj1 (Forall_forall _ _) Hv).
Qed.

Lemma binning_sorted_witness : StronglySorted Z.le [0; 2; 9].
Proof.
  apply (binning_sorted [5; 6; 7; (21 # 2); 11]%Q (1 # 2) 6 10 [0; 2; 9]);
    [reflexivity | | reflexivity].
  repeat constructor; discriminate.
Defined.

(** ** [generate_count_peaks_matrix] *)









(** Two matrices of one shape with the same cells are equal. *)
Lemma matrix_ext rows cols (m m' : matrix) :
  has_shape rows cols m → has_shape rows cols m' →
  (∀ r c, (r < rows)%nat → (c < cols)%nat → cell m r c = cell m' r c) →
  m = m'.
Proof.
  intros [Hlen Hrows] [Hlen' Hrows'] Hcell. apply list_eq. intros r.
  destruct (m !! r) as [row|] eqn:Hr; destruct (m' !! r) as [row'|] eqn:Hr'.
  - assert (Hl : length row = cols).
    { eapply (proj1 (Forall_forall _ _) Hrows). apply list_elem_of_lookup. eauto. }
    assert (Hl' : length row' = cols).
    { eapply (proj1 (Forall_forall _ _) Hrows'). apply list_elem_of_lookup. eauto. }
    f_equal. apply list_eq. intros c.
    destruct (decide (c < cols)%nat) as [Hc|Hc].
    + pose proof (lookup_lt_Some _ _ _ Hr) as Hlt.
      specialize (Hcell r c ltac:(lia) Hc). unfold cell in Hcell.
      by rewrite Hr, Hr' in Hcell.
    + rewrite !lookup_ge_None_2 by lia. done.
  - apply lookup_lt_Some in Hr. apply lookup_ge_None in Hr'. lia.
  - apply lookup_lt_Some in Hr'. apply lookup_ge_None in Hr. lia.
  - done.
Qed.

(** X7.  The count matrix does not depend on the order of the index
    pairs: two lists of pairs of the grid that are permutations of each
    other give the same matrix. *)
Theorem generate_order_independent (pairs pairs' : list (Z * Z))
    (H_num_1D_grid N_num_1D_grid : Z) :
  0 ≤ H_num_1D_grid → 0 ≤ N_num_1D_grid →
  Forall (λ b, 0 ≤ fst b ≤ H_num_1D_grid - 1 ∧ 0 ≤ snd b ≤ N_num_1D_grid - 1) pairs →
  pairs ≡ₚ pairs' →
  generate_count_peaks_matrix (pairs.*1) (pairs.*2) H_num_1D_grid N_num_1D_grid =
  generate_count_peaks_matrix (pairs'.*1) (pairs'.*2) H_num_1D_grid N_num_1D_grid.
Proof.
  intros HnH HnN Hp Hperm.
  assert (Hp' : Forall (λ b, 0 ≤ fst b ≤ H_num_1D_grid - 1 ∧
                             0 ≤ snd b ≤ N_num_1D_grid - 1) pairs')
    by (by rewrite <- Hperm).
  assert (Hsplit : ∀ l : list (Z * Z),
    Forall (λ b, 0 ≤ fst b ≤ H_num_1D_grid - 1 ∧ 0 ≤ snd b ≤ N_num_1D_grid - 1) l →
    Forall (λ i, 0 ≤ i ≤ H_num_1D_grid - 1) (l.*1) ∧
    Forall (λ i, 0 ≤ i ≤ N_num_1D_grid - 1) (l.*2)).
  { intros l Hl. rewrite !Forall_fmap. split;
      (eapply Forall_impl; [exact Hl | intros [h n]; simpl; tauto]). }
  destruct (Hsplit _ Hp) as [H1 H2]. destruct (Hsplit _ Hp') as [H1' H2'].
  destruct (generate_in_range _ _ _ _ HnH HnN H1 H2) as (m & Em & Sm & _).
  destruct (generate_in_range _ _ _ _ HnH HnN H1' H2') as (m' & Em' & Sm' & _).
  rewrite Em, Em'. f_equal. apply (matrix_ext _ _ _ _ Sm Sm'). intros r c Hr Hc.
  rewrite (generate_cells _ _ _ _ _ HnH HnN H1 H2 Em r c) by lia.
  rewrite (generate_cells _ _ _ _ _ HnH HnN H1' H2' Em' r c) by lia.
  rewrite !zip_fst_snd. unfold pairs_at. by rewrite Hperm.
Qed.

Lemma generate_order_independent_witness :
  generate_count_peaks_matrix ([(0, 1); (1, 2); (0, 0)].*1)
    ([(0, 1); (1, 2); (0, 0)].*2) 2 3 =
  generate_count_peaks_matrix ([(0, 0); (0, 1); (1, 2)].*1)
    ([(0, 0); (0, 1); (1, 2)].*2) 2 3.
Proof.
  apply (generate_order_independent [(0, 1); (1, 2); (0, 0)]
           [(0, 0); (0, 1); (1, 2)] 2 3); [lia | lia | |].
  - repeat constructor; simpl; lia.
  - symmetry. apply (Permutation_cons_append [(0, 1); (1, 2)] (0, 0)).
Defined.

(** ** The two axes together *)












(** ** Reading the peaks *)

Lemma np_max_loop_spec (l : list Q) (x : Q) :
  let r := foldl (λ a b, if Qle_bool a b then b else a) x l in
  (r = x ∨ r ∈ l) ∧ (x <= r)%Q ∧ Forall (λ y, (y <= r)%Q) l.
Proof.
  revert x. induction l as [|y l IH]; intros x; simpl.
  - split; [by left|]. split; [apply Qle_refl | constructor].
  - destruct (Qle_bool x y) eqn:E.
    + apply Qle_bool_iff in E.
      destruct (IH y) as ([Hr|Hr] & Hy & Hall).
      * split; [right; rewrite Hr; left|]. split; [by eapply Qle_trans|].
        by constructor.
      * split; [right; by right|]. split; [by eapply Qle_trans|].
        by constructor.
    + assert (Hyx : (y <= x)%Q).
      { destruct (Qlt_le_dec y x) as [H|H]; [by apply Qlt_le_weak|].
        apply Qle_bool_iff in H. congruence. }
      destruct (IH x) as ([Hr|Hr] & Hx & Hall).
      * split; [by left|]. split; [done|]. constructor; [|done].
        by eapply Qle_trans.
      * split; [right; by right|]. split; [done|]. constructor; [|done].
        by eapply Qle_trans.
Qed.

(** [np.max] of a non-empty list is one of its elements and bounds all
    of them. *)
Lemma np_max_spec (x : Q) (l : list Q) :
  ∃ mx, np_max (x :: l) = Ok mx ∧ mx ∈ x :: l ∧
        Forall (λ y, (y <= mx)%Q) (x :: l).
Proof.
  destruct (np_max_loop_spec l x) as ([Hr|Hr] & Hx & Hall).
  - eexists. split; [done|]. split; [rewrite Hr; left | by constructor].
  - eexists. split; [done|]. split; [by right | by constructor].
Qed.

(** The peaks that the loop over the Topspin peak list keeps. *)
Lemma select_loop_spec (mx : Q) (peak_list : list peak) (H0 N0 : list Q) :
  for_each (select_body mx) (H0, N0) peak_list =
    Ok (H0 ++ ((λ p, fst (position p)) <$>
               filter (λ p, (0 < intensity p / mx)%Q) peak_list),
        N0 ++ ((λ p, snd (position p)) <$>
               filter (λ p, (0 < intensity p / mx)%Q) peak_list)).
Proof.
  revert H0 N0. induction peak_list as [|p l IH]; intros H0 N0; simpl.
  - by rewrite !app_nil_r.
  - rewrite filter_cons. destruct (Qle_bool (intensity p / mx) 0) eqn:E; simpl.
    + apply Qle_bool_iff in E.
      rewrite decide_False by (by apply Qle_not_lt). apply IH.
    + rewrite decide_True; last first.
      { destruct (Qlt_le_dec 0 (intensity p / mx)) as [|H]; [done|].
        apply Qle_bool_iff in H. congruence. }
      rewrite IH. simpl. by rewrite <- !app_assoc.
Qed.

Lemma read_peaks_topspin (p : peak) (l : list peak) :
  ∃ mx, np_max (intensity <$> p :: l) = Ok mx ∧
        mx ∈ intensity <$> p :: l ∧
        Forall (λ q, (intensity q <= mx)%Q) (p :: l) ∧
        read_peaks (FromTopspin (p :: l)) =
          Ok ((λ q, fst (position q)) <$>
              filter (λ q, (0 < intensity q / mx)%Q) (p :: l),
              (λ q, snd (position q)) <$>
              filter (λ q, (0 < intensity q / mx)%Q) (p :: l)).
Proof.
  rewrite fmap_cons.
  destruct (np_max_spec (intensity p) (intensity <$> l)) as (mx & E & Hin & Hall).
  exists mx. split; [done|]. split; [done|]. split.
  - rewrite <- fmap_cons, Forall_fmap in Hall. done.
  - unfold read_peaks. cbn [length Nat.eqb]. rewrite fmap_cons, E.
    cbn [mbind result_bind]. by rewrite select_loop_spec.
Qed.

(** X10.  Whatever the source of the peaks, the script gets as many H
    shifts as N shifts, and no more of them than there are peaks; from
    a CSV file it gets one of each per row. *)
Theorem read_peaks_lengths (src : peak_source) (H_shifts N_shifts : list Q) :
  read_peaks src = Ok (H_shifts, N_shifts) →
  length H_shifts = length N_shifts ∧
  match src with
  | FromCsv peak_list => length H_shifts = length peak_list
  | FromTopspin peak_list => (length H_shifts ≤ length peak_list)%nat
  end.
Proof.
  destruct src as [rows|[|p l]].
  - simpl. intros [= <- <-]. by rewrite !length_fmap.
  - discriminate.
  - destruct (read_peaks_topspin p l) as (mx & _ & _ & _ & ->).
    intros [= <- <-]. rewrite !length_fmap. split; [done|]. apply length_filter.
Qed.

Lemma read_peaks_lengths_witness :
  length [7%Q] = length [100%Q] ∧ (length [7%Q] ≤ 2)%nat.
Proof.
  apply (read_peaks_lengths
           (FromTopspin [mkPeak 3 (7, 100)%Q; mkPeak (-1) (8, 110)%Q]) [7%Q] [100%Q]).
  reflexivity.
Defined.








(** ** The script as a whole *)




(** ** The spectra of [build_shap_spectra] *)

Lemma chunks_length {A} (cols rows : nat) (v : list A) :
  length (chunks cols rows v) = rows.
Proof. revert v. induction rows as [|rows IH]; intros v; simpl; [done|]. by rewrite IH. Qed.

Lemma chunks_rows {A} (cols rows : nat) (v : list A) :
  length v = (rows * cols)%nat →
  Forall (λ row, length row = cols) (chunks cols rows v).
Proof.
  revert v. induction rows as [|rows IH]; intros v Hv; simpl; constructor.
  - rewrite length_take. lia.
  - apply IH. rewrite length_drop. lia.
Qed.

Lemma concat_chunks {A} (cols rows : nat) (v : list A) :
  length v = (rows * cols)%nat → concat (chunks cols rows v) = v.
Proof.
  revert v. induction rows as [|rows IH]; intros v Hv; simpl.
  - symmetry. apply nil_length_inv. lia.
  - rewrite IH by (rewrite length_drop; lia). apply take_drop.
Qed.

Lemma chunks_concat {A} (cols : nat) (m : list (list A)) :
  Forall (λ row, length row = cols) m →
  chunks cols (length m) (concat m) = m.
Proof.
  induction 1 as [|row m Hrow _ IH]; simpl; [done|].
  rewrite take_app_length' by done. rewrite drop_app_length' by done.
  by rewrite IH.
Qed.

Lemma np_reshape_ok {A} (v : list A) (rows cols : nat) :
  length v = (rows * cols)%nat → np_reshape v rows cols = Ok (chunks cols rows v).
Proof. intros Hv. unfold np_reshape. by rewrite (proj2 (Nat.eqb_eq _ _) Hv). Qed.

Lemma np_reshape_raises {A} (v : list A) (rows cols : nat) :
  length v ≠ (rows * cols)%nat → np_reshape v rows cols = Raise ValueError.
Proof. intros Hv. unfold np_reshape. by rewrite (proj2 (Nat.eqb_neq _ _) Hv). Qed.

(** X13.  The cut of [build_shap_spectra] works on vectors of 540
    values and on no other: on such a vector it gives three spectra of
    20 by 10, 26 by 10 and 10 by 8 values that, read row by row one
    after the other, are the vector again; on any other length one of
    the three [reshape] calls raises [ValueError]. *)
Theorem shap_spectra_540 {A : Type} (values : list A) :
  (length values = 540%nat →
   ∃ s0 s1 s2, shap_spectra values = Ok [s0; s1; s2] ∧
     length s0 = 20%nat ∧ Forall (λ row, length row = 10%nat) s0 ∧
     length s1 = 26%nat ∧ Forall (λ row, length row = 10%nat) s1 ∧
     length s2 = 10%nat ∧ Forall (λ row, length row = 8%nat) s2 ∧
     concat s0 ++ concat s1 ++ concat s2 = values) ∧
  (length values ≠ 540%nat → shap_spectra values = Raise ValueError).
Proof.
  unfold shap_spectra, slice. split; intros Hlen.
  - assert (L0 : length (take 200 values) = (20 * 10)%nat)
      by (rewrite length_take; lia).
    assert (L1 : length (drop 200 (take 460 values)) = (26 * 10)%nat)
      by (rewrite length_drop, length_take; lia).
    assert (L2 : length (drop 460 values) = (10 * 8)%nat)
      by (rewrite length_drop; lia).
    rewrite !np_reshape_ok by done. cbn [mbind result_bind].
    eexists _, _, _. split; [done|].
    rewrite !chunks_length, !concat_chunks by done.
    do 6 (split; [done || by apply chunks_rows|]).
    assert (E : take 200 values = take 200 (take 460 values))
      by (by rewrite take_take).
    by rewrite E, app_assoc, !take_drop.
  - destruct (decide (length (take 200 values) = (20 * 10)%nat)) as [L0|L0];
      [|by rewrite (np_reshape_raises (take 200 values))].
    rewrite (np_reshape_ok (take 200 values)) by done. cbn [mbind result_bind].
    destruct (decide (length (drop 200 (take 460 values)) = (26 * 10)%nat))
      as [L1|L1]; [|by rewrite (np_reshape_raises (drop 200 (take 460 values)))].
    rewrite (np_reshape_ok (drop 200 (take 460 values))) by done.
    cbn [mbind result_bind].
    rewrite np_reshape_raises; [done|].
    rewrite length_drop. rewrite length_drop, length_take in L1. lia.
Qed.

Lemma shap_spectra_540_witness :
  shap_spectra [1; 2; 3]%nat = Raise ValueError.
Proof. apply (shap_spectra_540 [1; 2; 3]%nat). simpl. lia. Defined.

(** X14.  [build_shap_spectra] cuts a vector the way [combine_inputs]
    builds it: the vector combined from three matrices of the shapes of
    the grids is cut back into these three matrices, so a value of a
    spectrum belongs to the cell of the count matrix at the same row
    and column. *)
Theorem shap_spectra_of_combined (m0 m1 m2 : matrix) :
  has_shape 20 10 m0 → has_shape 26 10 m1 → has_shape 10 8 m2 →
  (assemble [m0; m1; m2] ≫= shap_spectra) = Ok [m0; m1; m2].
Proof.
  intros [R0 C0] [R1 C1] [R2 C2].
  pose proof (reshape_1D_length _ _ _ (conj R0 C0)) as L0.
  pose proof (reshape_1D_length _ _ _ (conj R1 C1)) as L1.
  pose proof (reshape_1D_length _ _ _ (conj R2 C2)) as L2.
  rewrite assemble_three. cbn [mbind result_bind].
  unfold shap_spectra, slice.
  assert (E0 : take 200 (reshape_1D m0 ++ reshape_1D m1 ++ reshape_1D m2)
               = reshape_1D m0) by (by rewrite take_app_length').
  assert (E1 : drop 200 (take 460 (reshape_1D m0 ++ reshape_1D m1 ++ reshape_1D m2))
               = reshape_1D m1).
  { rewrite app_assoc, take_app_length' by (rewrite length_app; lia).
    by rewrite drop_app_length'. }
  assert (E2 : drop 460 (reshape_1D m0 ++ reshape_1D m1 ++ reshape_1D m2)
               = reshape_1D m2).
  { rewrite app_assoc, drop_app_length' by (rewrite length_app; lia). done. }
  rewrite E0, E1, E2, !np_reshape_ok by done. cbn [mbind result_bind].
  unfold reshape_1D.
  assert (K0 : chunks 10 20 (concat m0) = m0)
    by (rewrite <- R0; by apply chunks_concat).
  assert (K1 : chunks 10 26 (concat m1) = m1)
    by (rewrite <- R1; by apply chunks_concat).
  assert (K2 : chunks 8 10 (concat m2) = m2)
    by (rewrite <- R2; by apply chunks_concat).
  by rewrite K0, K1, K2.
Qed.

Lemma shap_spectra_of_combined_witness :
  (assemble [replicate 20 (replicate 10 1%nat); replicate 26 (replicate 10 2%nat);
             replicate 10 (replicate 8 3%nat)] ≫= shap_spectra) =
  Ok [replicate 20 (replicate 10 1%nat); replicate 26 (replicate 10 2%nat);
      replicate 10 (replicate 8 3%nat)].
Proof.
  apply (shap_spectra_of_combined (replicate 20 (replicate 10 1%nat))
           (replicate 26 (replicate 10 2%nat)) (replicate 10 (replicate 8 3%nat)));
    (split; [reflexivity | repeat constructor]).
Defined.

(** ** [get_shifts] *)

Lemma get_shifts_loop_spec (atomtype : string) (values : list (gmap string (list Q)))
    (shifts : list (list Q)) :
  match get_shifts_loop atomtype shifts values with
  | Got l =>
      ∃ cols, l = shifts ++ cols ∧
              Forall2 (λ d col, d !! (atomtype +:+ "_shift") = Some col) values cols
  | RaiseKeyError key =>
      key = atomtype +:+ "_shift" ∧
      Exists (λ d, d !! (atomtype +:+ "_shift") = None) values
  end.
Proof.
  revert shifts. induction values as [|d values IH]; intros shifts; simpl.
  - exists []. by rewrite app_nil_r.
  - unfold get_shifts_body.
    destruct (d !! (atomtype +:+ "_shift")) as [col|] eqn:Hd.
    + specialize (IH (shifts ++ [col])).
      destruct (get_shifts_loop atomtype (shifts ++ [col]) values) as [l|key].
      * destruct IH as (cols & -> & Hcols). exists (col :: cols).
        split; [by rewrite <- app_assoc | by constructor].
      * destruct IH as [-> Hex]. split; [done | by right].
    + split; [done | by left].
Qed.

(** X15.  [get_shifts] returns the column [<atomtype>_shift] of every
    data frame of the dictionary, in the order of the dictionary, one
    per entry; it raises [KeyError] with the name of that column
    exactly when some data frame lacks it. *)
Theorem get_shifts_columns (chemical_shifts : list (string * gmap string (list Q)))
    (atomtype : string) :
  (∀ l, get_shifts chemical_shifts atomtype = Got l ↔
        Forall2 (λ item col, snd item !! (atomtype +:+ "_shift") = Some col)
          chemical_shifts l) ∧
  (∀ key, get_shifts chemical_shifts atomtype = RaiseKeyError key ↔
          key = atomtype +:+ "_shift" ∧
          Exists (λ item, snd item !! (atomtype +:+ "_shift") = None)
            chemical_shifts).
Proof.
  unfold get_shifts.
  assert (Hexcl : ∀ cols,
    Forall2 (λ item col, snd item !! (atomtype +:+ "_shift") = Some col)
      chemical_shifts cols →
    Exists (λ item, snd item !! (atomtype +:+ "_shift") = None) chemical_shifts →
    False).
  { intros cols HF. induction HF as [|item col cs cols' Hi _ IH]; intros Hex.
    - by apply Exists_nil in Hex.
    - apply Exists_cons in Hex as [Hex|Hex]; [congruence | by apply IH]. }
  assert (Hfun : ∀ cols cols',
    Forall2 (λ item col, snd item !! (atomtype +:+ "_shift") = Some col)
      chemical_shifts cols →
    Forall2 (λ item col, snd item !! (atomtype +:+ "_shift") = Some col)
      chemical_shifts cols' → cols = cols').
  { clear Hexcl. intros cols cols' HF. revert cols'.
    induction HF as [|item col cs cols1 Hi _ IH]; intros cols' HF'.
    - by apply Forall2_nil_inv_l in HF'.
    - apply Forall2_cons_inv_l in HF' as (col' & cols2 & Hi' & HF' & ->).
      f_equal; [congruence | by apply IH]. }
  pose proof (get_shifts_loop_spec atomtype (snd <$> chemical_shifts) []) as Hspec.
  destruct (get_shifts_loop atomtype [] (snd <$> chemical_shifts)) as [l0|key0].
  - destruct Hspec as (cols & -> & Hcols). simpl.
    apply Forall2_fmap_l in Hcols. split.
    + intros l. split.
      * by intros [= <-].
      * intros HF. f_equal. by apply Hfun.
    + intros key. split; [discriminate|]. intros [_ Hex]. exfalso. eauto.
  - destruct Hspec as [-> Hex]. rewrite Exists_fmap in Hex. split.
    + intros l. split; [discriminate|]. intros HF. exfalso. eauto.
    + intros key. split.
      * by intros [= <-].
      * by intros [-> _].
Qed.

(** ** The command line *)

Lemma getitem_1_short {A} (l : list A) :
  (length l ≤ 1)%nat → getitem l 1 = Raise IndexError.
Proof.
  intros Hl. unfold getitem.
  assert ((Z.of_nat (length l) <=? 1) = true) as -> by lia.
  by rewrite orb_true_r.
Qed.

Lemma getitem_1_inv {A} (l : list A) a :
  getitem l 1 = Ok a → l !! 1%nat = Some a.
Proof.
  unfold getitem.
  destruct ((1 <? - Z.of_nat (length l)) || (Z.of_nat (length l) <=? 1));
    [discriminate|].
  change (Z.to_nat (if 1 <? 0 then 1 + Z.of_nat (length l) else 1)) with 1%nat.
  destruct (l !! 1%nat); [by intros [= ->] | discriminate].
Qed.

(** X16.  A run without a command-line argument takes the Topspin
    branch and never ends normally: if nothing raises before, the last
    [if] of the script reads [sys.argv[1]] and raises [IndexError],
    after the prediction has been printed. *)
Theorem script_without_argument (Model_cbm : list nat → result (list Q))
    (read_csv : string → result (list csv_row)) (hsqc_peak_list : list peak)
    (shap_block : result unit) (argv : list string) :
  (length argv ≤ 1)%nat →
  select_mode argv = TopspinMode ∧
  (∀ r, script Model_cbm read_csv hsqc_peak_list shap_block argv ≠ Ok r) ∧
  (∀ out, main Model_cbm (FromTopspin hsqc_peak_list) = Ok out →
          "shap" ∉ argv →
          script Model_cbm read_csv hsqc_peak_list shap_block argv
            = Raise IndexError).
Proof.
  intros Hlen.
  assert (Hmode : select_mode argv = TopspinMode).
  { unfold select_mode. by rewrite lookup_ge_None_2 by lia. }
  split; [done|]. unfold script. rewrite Hmode, getitem_1_short by done.
  cbn [mbind result_bind]. split.
  - intros r. destruct (main Model_cbm (FromTopspin hsqc_peak_list)); [|done].
    cbn [mbind result_bind].
    destruct (if bool_decide ("shap" ∈ argv) then shap_block else Ok ()); done.
  - intros out -> Hshap. cbn [mbind result_bind].
    by rewrite bool_decide_eq_false_2.
Qed.

Lemma script_without_argument_witness :
  script (λ _, Ok [(1 # 2); (1 # 4); (1 # 4)]%Q) (λ _, Ok [])
    [mkPeak 1 (7, 100)%Q] (Ok ()) ["ssp.py"] = Raise IndexError.
Proof.
  destruct (script_without_argument (λ _, Ok [(1 # 2); (1 # 4); (1 # 4)]%Q)
              (λ _, Ok []) [mkPeak 1 (7, 100)%Q] (Ok ()) ["ssp.py"])
    as (_ & _ & H).
  - simpl. lia.
  - eapply H.
    + vm_compute. reflexivity.
    + intros Hin. apply list_elem_of_singleton in Hin. discriminate Hin.
Defined.

(** X17.  When a run ends normally, its self-test has run exactly if
    the run took the test branch, that is, exactly if the first
    argument is [test] and the peaks were read from the bundled peak
    list. *)
Theorem script_self_test_iff (Model_cbm : list nat → result (list Q))
    (read_csv : string → result (list csv_row)) (hsqc_peak_list : list peak)
    (shap_block : result unit) (argv : list string) (out : printed) (ran : bool) :
  script Model_cbm read_csv hsqc_peak_list shap_block argv = Ok (out, ran) →
  (ran = true ↔ select_mode argv = TestMode) ∧
  (ran = true ↔ argv !! 1%nat = Some "test").
Proof.
  unfold script. intros E.
  destruct (match select_mode argv with
            | TestMode => _ | CsvMode path => _ | TopspinMode => _ end)
    as [src|]; [|discriminate].
  cbn [mbind result_bind] in E.
  destruct (main Model_cbm src) as [o|]; [|discriminate].
  cbn [mbind result_bind] in E.
  destruct (if bool_decide ("shap" ∈ argv) then shap_block else Ok ());
    [|discriminate].
  cbn [mbind result_bind] in E.
  destruct (getitem argv 1) as [arg|] eqn:Eg; [|discriminate].
  cbn [mbind result_bind] in E. injection E as <- <-.
  apply getitem_1_inv in Eg. unfold select_mode. rewrite Eg.
  destruct (String.eqb arg "test") eqn:Et.
  - apply String.eqb_eq in Et as ->. done.
  - apply String.eqb_neq in Et. split.
    + split; [discriminate|]. by destruct (endswith arg ".csv").
    + split; [discriminate|]. by intros [= ->].
Qed.

Lemma script_self_test_iff_witness :
  (true = true ↔ select_mode ["ssp.py"; "test"] = TestMode) ∧
  (true = true ↔ ["ssp.py"; "test"] !! 1%nat = Some "test").
Proof.
  destruct (main (λ _, Ok [(1 # 2); (1 # 4); (1 # 4)]%Q)
              (FromCsv [mkRow 7 100])) as [out|] eqn:E;
    [|vm_compute in E; discriminate E].
  apply (script_self_test_iff (λ _, Ok [(1 # 2); (1 # 4); (1 # 4)]%Q)
           (λ _, Ok [mkRow 7 100]) [] (Ok ()) ["ssp.py"; "test"] out true).
  unfold script. change (select_mode ["ssp.py"; "test"]) with TestMode.
  cbn [mbind result_bind]. rewrite E. reflexivity.
Defined.

Lemma string_length_app (s1 s2 : string) :
  String.length (s1 +:+ s2) = (String.length s1 + String.length s2)%nat.
Proof. induction s1 as [|c s1 IH]; simpl; [done | by rewrite IH]. Qed.

Lemma substring_all (s : string) : String.substring 0 (String.length s) s = s.
Proof. induction s as [|c s IH]; simpl; [done | by rewrite IH]. Qed.

Lemma substring_app_r (s1 s2 : string) :
  String.substring (String.length s1) (String.length s2) (s1 +:+ s2) = s2.
Proof. induction s1 as [|c s1 IH]; simpl; [apply substring_all | done]. Qed.

Lemma substring_split (s : string) (i : nat) :
  (i ≤ String.length s)%nat →
  s = String.substring 0 i s +:+ String.substring i (String.length s - i) s.
Proof.
  revert i. induction s as [|c s IH]; intros [|i] Hi; simpl in *; try lia.
  - done.
  - by rewrite substring_all.
  - change (String c s =
            String c (String.substring 0 i s +:+
                      String.substring i (String.length s - i) s)).
    f_equal. apply IH. lia.
Qed.

(** [endswith] holds exactly of the strings that are some prefix
    followed by the suffix. *)
Lemma endswith_spec (s suffix : string) :
  endswith s suffix = true ↔ ∃ pre, s = pre +:+ suffix.
Proof.
  unfold endswith. rewrite andb_true_iff, Nat.leb_le, String.eqb_eq. split.
  - intros [Hle Hsub].
    exists (String.substring 0 (String.length s - String.length suffix) s).
    rewrite <- Hsub at 2.
    rewrite (substring_split s (String.length s - String.length suffix)) at 1
      by lia.
    do 2 f_equal. lia.
  - intros [pre ->]. rewrite string_length_app. split; [lia|].
    replace (String.length pre + String.length suffix - String.length suffix)%nat
      with (String.length pre) by lia.
    apply substring_app_r.
Qed.

(** X18.  Which branch the script takes.  It reads the bundled peak
    list exactly when the first argument is [test], a CSV file exactly
    when the first argument ends in [.csv], in lower case, and the
    Topspin dataset in every other case, also when there is no
    argument. *)
Theorem select_mode_cases (argv : list string) :
  (select_mode argv = TestMode ↔ argv !! 1%nat = Some "test") ∧
  (∀ path, select_mode argv = CsvMode path ↔
           argv !! 1%nat = Some path ∧ ∃ pre, path = pre +:+ ".csv") ∧
  (select_mode argv = TopspinMode ↔
   ∀ arg, argv !! 1%nat = Some arg →
          arg ≠ "test" ∧ ¬ ∃ pre, arg = pre +:+ ".csv").
Proof.
  unfold select_mode. destruct (argv !! 1%nat) as [arg|]; last first.
  { split; [|split]; [split; discriminate| |].
    - intros path. split; [discriminate | intros [? _]; discriminate].
    - split; [intros _ arg; discriminate | done]. }
  destruct (String.eqb arg "test") eqn:Et.
  - apply String.eqb_eq in Et as ->. split; [done|]. split.
    + intros path. split; [discriminate|]. intros [[= <-] Hcsv].
      apply endswith_spec in Hcsv. discriminate Hcsv.
    + split; [discriminate|]. intros H. by destruct (H "test" eq_refl).
  - apply String.eqb_neq in Et.
    destruct (endswith arg ".csv") eqn:Ec.
    + apply endswith_spec in Ec. split; [|split].
      * split; [discriminate | by intros [= ->]].
      * intros path. split; [by intros [= <-] | by intros [[= ->] _]].
      * split; [discriminate|]. intros H. by destruct (H arg eq_refl).
    + assert (Hn : ¬ ∃ pre, arg = pre +:+ ".csv").
      { intros H. apply endswith_spec in H. congruence. }
      split; [|split].
      * split; [discriminate | by intros [= ->]].
      * intros path. split; [discriminate|]. by intros [[= ->] H].
      * split; [|done]. by intros _ arg' [= <-].
Qed.

(** ** Printing the prediction *)

Lemma round_half_even_floor (x : Q) :
  round_half_even x = Qfloor x ∨ round_half_even x = Qfloor x + 1.
Proof.
  unfold round_half_even.
  destruct (x - inject_Z (Qfloor x) ?= 1 # 2)%Q; [|by left|by right].
  destruct (Z.even (Qfloor x)); [by left | by right].
Qed.

Lemma round_half_even_mono (x y : Q) :
  (x <= y)%Q → round_half_even x ≤ round_half_even y.
Proof.
  intros Hxy. pose proof (Qfloor_resp_le _ _ Hxy) as Hf.
  destruct (Z.eq_dec (Qfloor x) (Qfloor y)) as [E|Hne].
  - unfold round_half_even. rewrite <- E.
    generalize (inject_Z (Qfloor x)). intros f.
    destruct (x - f ?= 1 # 2)%Q eqn:Ex; destruct (y - f ?= 1 # 2)%Q eqn:Ey;
      try (destruct (Z.even (Qfloor x)); lia); exfalso;
      repeat match goal with
      | H : (_ ?= _)%Q = Eq |- _ => apply Qeq_alt in H
      | H : (_ ?= _)%Q = Lt |- _ => apply Qlt_alt in H
      | H : (_ ?= _)%Q = Gt |- _ => apply Qgt_alt in H
      end; lra.
  - destruct (round_half_even_floor x) as [-> | ->];
      destruct (round_half_even_floor y) as [-> | ->]; lia.
Qed.

Lemma round_3_mono (x y : Q) : (x <= y)%Q → (round x 3 <= round y 3)%Q.
Proof.
  intros Hxy. rewrite !round_3_thousandths.
  apply Qmult_le_r; [reflexivity|].
  rewrite <- Zle_Qle. apply round_half_even_mono.
  apply Qmult_le_r; [reflexivity | done].
Qed.

Lemma round_3_Z (k : Z) : (round (inject_Z k) 3 == inject_Z k)%Q.
Proof.
  rewrite round_3_thousandths.
  assert (E : (inject_Z k * 1000 == inject_Z (k * 1000))%Q)
    by (by rewrite inject_Z_mult).
  rewrite (round_half_even_comp _ _ E), round_half_even_Z, inject_Z_mult.
  change (inject_Z 1000) with 1000%Q. field.
Qed.

(** X19.  [print_prediction] needs three outputs of the model: with
    fewer it raises [IndexError], and what comes after the third is
    not looked at. *)
Theorem print_prediction_needs_three (prediction : list Q) :
  ((length prediction < 3)%nat → print_prediction prediction = Raise IndexError) ∧
  (∀ coil sheet helix rest,
     prediction = coil :: sheet :: helix :: rest →
     print_prediction prediction = print_prediction [coil; sheet; helix]).
Proof.
  split.
  - intros Hlen. unfold print_prediction, getitem.
    assert ((Z.of_nat (length prediction) <=? 2) = true) as -> by lia.
    by rewrite orb_true_r.
  - intros coil sheet helix rest ->. unfold print_prediction.
    rewrite !(getitem_lookup _ 2 helix), !(getitem_lookup _ 1 sheet),
      !(getitem_lookup _ 0 coil) by done.
    done.
Qed.

Lemma print_prediction_needs_three_witness :
  print_prediction [(1 # 2); (1 # 2)]%Q = Raise IndexError.
Proof. apply (print_prediction_needs_three [(1 # 2); (1 # 2)]%Q). simpl. lia. Defined.

(** X20.  The printed percentages keep the order of the outputs of the
    model, and an output between 0 and 1 is printed as a percentage
    between 0 and 100. *)
Theorem printed_percentages (coil sheet helix : Q) (out : printed) :
  print_prediction [coil; sheet; helix] = Ok out →
  ((coil <= sheet)%Q → (Coil out <= Sheet out)%Q) ∧
  ((sheet <= helix)%Q → (Sheet out <= Helix out)%Q) ∧
  ((coil <= helix)%Q → (Coil out <= Helix out)%Q) ∧
  ((0 <= coil <= 1)%Q → (0 <= Coil out <= 100)%Q) ∧
  ((0 <= sheet <= 1)%Q → (0 <= Sheet out <= 100)%Q) ∧
  ((0 <= helix <= 1)%Q → (0 <= Helix out <= 100)%Q).
Proof.
  unfold print_prediction.
  rewrite (getitem_lookup _ 2 helix), (getitem_lookup _ 1 sheet),
    (getitem_lookup _ 0 coil) by done.
  intros [= <-]. cbn [Coil Sheet Helix]. rewrite !format_1f_round_3.
  assert (Hmono : ∀ x y, (x <= y)%Q → (round x 3 * 100 <= round y 3 * 100)%Q).
  { intros x y Hxy. apply Qmult_le_r; [reflexivity | by apply round_3_mono]. }
  assert (Hunit : ∀ x, (0 <= x <= 1)%Q → (0 <= round x 3 * 100 <= 100)%Q).
  { intros x [H0 H1].
    pose proof (round_3_mono _ _ H0) as L0. pose proof (round_3_mono _ _ H1) as L1.
    rewrite (round_3_Z 0) in L0. rewrite (round_3_Z 1) in L1.
    change (inject_Z 0) with 0%Q in L0. change (inject_Z 1) with 1%Q in L1.
    split; lra. }
  repeat split; auto; by apply Hunit.
Qed.

Lemma printed_percentages_witness :
  ∃ out, print_prediction [(1 # 5); (3 # 10); (1 # 2)]%Q = Ok out ∧
         (Coil out <= Sheet out)%Q.
Proof.
  destruct (print_prediction [(1 # 5); (3 # 10); (1 # 2)]%Q) as [out|] eqn:E;
    [|vm_compute in E; discriminate E].
  exists out. split; [reflexivity|].
  apply (printed_percentages (1 # 5) (3 # 10) (1 # 2) out E). vm_compute.
  discriminate.
Defined.
